(** * repo-search: the incremental indexing engine

    A shallow embedding of [SearchEngine.index_repository]
    (src/repo_search/search/engine.py) and the properties of its staged
    download / chunk / embed pipeline.

    Python values are modelled as follows.
    - [RepositoryInfo] and [DocumentChunk] objects are records.  The fetcher
      builds a fresh object on each call and the database returns a
      deserialised one, so objects are values here.
    - dicts are [gmap string string], Python sets are [gset string]; a [for]
      loop over a dict or a set is a left fold over [map_to_list] or
      [elements].  Python visits a set of strings in an order that depends
      on the hash seed; [elements] is one such order, and the theorems that
      hold for every run state what a loop over a set does by membership,
      so that they do not depend on it.
    - exceptions are an error result; the effects of a call (the persisted
      repositories, the chunk store, the scratch directories on disk) live in
      a [World] that is threaded through, and every effectful collaborator
      call is logged as an [Event] of the run.  An exception is an instance
      of [Exception], which is what every handler of the engine catches; a
      [BaseException] such as [KeyboardInterrupt], which would pass through
      the handlers, is not modelled.
    - the collaborators (GitHub fetcher, chunker, clock, file system) are the
      fields of a record [Collaborators], so that the engine can be run on
      concrete collaborators.
    - the calls that can raise are [get_repository_info],
      [fetch_repository_contents], [chunk_file], [chunk_repository],
      [store_chunks] and [shutil.rmtree]; [tempfile.mkdtemp], reading and
      writing the repository record, deleting chunks and listing or
      classifying files always return.  [print] is left out. *)

From Stdlib Require Import ZArith.
From stdpp Require Import base option list gmap sets strings.

Local Open Scope string_scope.
Local Open Scope list_scope.

(** ** Data model *)

Module RepositoryInfo.
(** [repo_search.models.RepositoryInfo]; the defaults of the optional
    fields are those the model tests assert. *)
Record t := mk {
  owner : string;
  name : string;
  url : string;
  last_indexed : option Z;
  num_files : nat;
  num_chunks : nat;
  commit_hash : option string;
  download_successful : bool;
  chunking_successful : bool;
  embedding_successful : bool;
  file_hashes : gmap string string
}.

(** [RepositoryInfo(owner=..., name=..., url=..., commit_hash=...)]. *)
Definition fresh (o n u : string) (h : option string) : t :=
  mk o n u None 0 0 h false false false ∅.

Definition full_name (r : t) : string := owner r +:+ "/" +:+ name r.

(** Attribute assignments [r.field = v]. *)
Definition set_file_hashes (v : gmap string string) (r : t) : t :=
  mk (owner r) (name r) (url r) (last_indexed r) (num_files r) (num_chunks r)
     (commit_hash r) (download_successful r) (chunking_successful r)
     (embedding_successful r) v.
Definition set_num_chunks (v : nat) (r : t) : t :=
  mk (owner r) (name r) (url r) (last_indexed r) (num_files r) v
     (commit_hash r) (download_successful r) (chunking_successful r)
     (embedding_successful r) (file_hashes r).
Definition set_num_files (v : nat) (r : t) : t :=
  mk (owner r) (name r) (url r) (last_indexed r) v (num_chunks r)
     (commit_hash r) (download_successful r) (chunking_successful r)
     (embedding_successful r) (file_hashes r).
Definition set_download_successful (v : bool) (r : t) : t :=
  mk (owner r) (name r) (url r) (last_indexed r) (num_files r) (num_chunks r)
     (commit_hash r) v (chunking_successful r)
     (embedding_successful r) (file_hashes r).
Definition set_chunking_successful (v : bool) (r : t) : t :=
  mk (owner r) (name r) (url r) (last_indexed r) (num_files r) (num_chunks r)
     (commit_hash r) (download_successful r) v
     (embedding_successful r) (file_hashes r).
Definition set_embedding_successful (v : bool) (r : t) : t :=
  mk (owner r) (name r) (url r) (last_indexed r) (num_files r) (num_chunks r)
     (commit_hash r) (download_successful r) (chunking_successful r)
     v (file_hashes r).
Definition set_last_indexed (v : option Z) (r : t) : t :=
  mk (owner r) (name r) (url r) v (num_files r) (num_chunks r)
     (commit_hash r) (download_successful r) (chunking_successful r)
     (embedding_successful r) (file_hashes r).
End RepositoryInfo.

Module DocumentChunk.
(** [repo_search.models.DocumentChunk]; [file_path] is the property that
    reads [metadata["file_path"]] and is [None] when the key is missing. *)
Record t := mk {
  id : string;
  repository : string;
  content : string;
  file_path : option string
}.
End DocumentChunk.

Abbreviation Info := RepositoryInfo.t.
Abbreviation Chunk := DocumentChunk.t.

(** Python exceptions, as far as the engine tells them apart
    ([isinstance(e, UnicodeDecodeError)]).  Both are instances of
    [Exception]. *)
Inductive exn :=
| UnicodeDecodeError
| OtherError (msg : string).

Inductive Result (A : Type) :=
| Ok (a : A)
| Raise (e : exn).
Arguments Ok {A} a.
Arguments Raise {A} e.

(** Python truthiness of the values the engine tests. *)
Definition str_truthy (s : string) : bool := negb (bool_decide (s = "")).
Definition opt_str_truthy (o : option string) : bool :=
  match o with Some s => str_truthy s | None => false end.
Definition dict_truthy (m : gmap string string) : bool := negb (bool_decide (m = ∅)).
Definition set_truthy (s : gset string) : bool := negb (bool_decide (s = ∅)).
Definition list_truthy {A} (l : list A) : bool :=
  match l with [] => false | _ :: _ => true end.

(** ** The world and the events of a run *)

Record World := mkWorld {
  repositories : gmap string Info;   (* persisted state, keyed by owner/name *)
  chunk_store : list Chunk;          (* the persisted chunks *)
  scratch : gset string              (* temporary directories on disk *)
}.

Inductive Event :=
| EvMkdtemp (d : string)
| EvFetch (repository : string) (ok : bool)
| EvDeleteFileChunks (repository path : string)
| EvDeleteRepositoryChunks (repository : string)
| EvChunkFile (path : string) (ok : bool)
| EvChunkRepository (ok : bool)
| EvStoreChunks (cs : list Chunk) (ok : bool)
| EvAddRepository (r : Info)
| EvRmtree (d : string) (ok : bool).

(** A computation reads and changes the world, logs events and either
    returns or raises; the changes made before a raise stay. *)
Record Outcome (A : Type) := mkOutcome {
  result : Result A;
  world : World;
  events : list Event
}.
Arguments mkOutcome {A}.
Arguments result {A}.
Arguments world {A}.
Arguments events {A}.

Definition M (A : Type) : Type := World → Outcome A.

Definition ret {A} (a : A) : M A := λ w, mkOutcome (Ok a) w [].
Definition raise {A} (e : exn) : M A := λ w, mkOutcome (Raise e) w [].
Definition bind {A B} (m : M A) (k : A → M B) : M B := λ w,
  let o := m w in
  match result o with
  | Ok a => let o' := k a (world o) in
            mkOutcome (result o') (world o') (events o ++ events o')
  | Raise e => mkOutcome (Raise e) (world o) (events o)
  end.
(** [try: m except Exception as e: h e]; every [exn] is an [Exception], so
    the handler receives whatever [m] raises. *)
Definition try_except {A} (m : M A) (h : exn → M A) : M A := λ w,
  let o := m w in
  match result o with
  | Ok a => o
  | Raise e => let o' := h e (world o) in
               mkOutcome (result o') (world o') (events o ++ events o')
  end.

Declare Scope engine_scope.
Delimit Scope engine_scope with engine.
Notation "'let!' x ':=' m 'in' k" := (bind m (λ x, k))
  (at level 10, x pattern, m at level 100, k at level 200) : engine_scope.
Local Open Scope engine_scope.

(** ** Collaborators *)

Record Collaborators := mkCollaborators {
  (* GitHubRepositoryFetcher *)
  get_repository_info : string → Result Info;
  fetch_repository_contents : string → string → Result (Info * option string);
  get_text_files : string → list string;        (* relative paths under repo_dir *)
  path_is_file : string → string → bool;        (* (repo_dir / p).exists() and .is_file() *)
  is_text_file : string → string → bool;
  (* RepositoryChunker: the chunks produced, and the exception if one is raised *)
  chunk_file : string → string → string → Result (list Chunk);
  chunk_repository : string → string → list Chunk * option exn;
  (* embedding and storing a batch may fail *)
  store_chunks_error : list Chunk → option exn;
  (* tempfile, shutil, datetime *)
  mkdtemp : gset string → string;
  rmtree_error : string → option exn;
  now : Z
}.

(** ** The persisted state store and the chunk store *)

(** Modelled from the spec: the database module (ChromaVectorDatabase) is not
    among the sources.  [get(id)] reads the state of an identifier, [put] is
    an upsert with full replace, keyed by the repository's full name. *)
Definition get_repository (repository : string) : M (option Info) := λ w,
  mkOutcome (Ok (repositories w !! repository)) w [].

Definition add_repository (r : Info) : M unit := λ w,
  mkOutcome (Ok tt)
    (mkWorld (<[RepositoryInfo.full_name r := r]> (repositories w)) (chunk_store w) (scratch w))
    [EvAddRepository r].

(** Modelled from the spec: [delete_chunks_for_file(id, path)] removes the
    chunks of one file of one repository, [delete_all_chunks(id)] all chunks of
    a repository, [store_chunks(records)] adds a batch (and is where an
    embedding failure surfaces). *)
Definition chunk_of_file (repository path : string) (c : Chunk) : bool :=
  bool_decide (DocumentChunk.repository c = repository)
  && bool_decide (DocumentChunk.file_path c = Some path).

Definition delete_file_chunks (repository path : string) : M unit := λ w,
  mkOutcome (Ok tt)
    (mkWorld (repositories w)
       (List.filter (λ c, negb (chunk_of_file repository path c)) (chunk_store w))
       (scratch w))
    [EvDeleteFileChunks repository path].

Definition delete_repository_chunks (repository : string) : M unit := λ w,
  mkOutcome (Ok tt)
    (mkWorld (repositories w)
       (List.filter (λ c, negb (bool_decide (DocumentChunk.repository c = repository)))
          (chunk_store w))
       (scratch w))
    [EvDeleteRepositoryChunks repository].

Definition store_chunks (env : Collaborators) (cs : list Chunk) : M unit := λ w,
  match store_chunks_error env cs with
  | Some e => mkOutcome (Raise e) w [EvStoreChunks cs false]
  | None => mkOutcome (Ok tt)
              (mkWorld (repositories w) (chunk_store w ++ cs) (scratch w))
              [EvStoreChunks cs true]
  end.

(** The calls into the collaborators, with their effect on the world. *)
Definition do_get_repository_info (env : Collaborators) (repository : string) : M Info := λ w,
  mkOutcome (get_repository_info env repository) w [].

Definition do_mkdtemp (env : Collaborators) : M string := λ w,
  let d := mkdtemp env (scratch w) in
  mkOutcome (Ok d) (mkWorld (repositories w) (chunk_store w) ({[d]} ∪ scratch w)) [EvMkdtemp d].

Definition do_fetch (env : Collaborators) (repository d : string) : M (Info * option string) := λ w,
  match fetch_repository_contents env repository d with
  | Ok x => mkOutcome (Ok x) w [EvFetch repository true]
  | Raise e => mkOutcome (Raise e) w [EvFetch repository false]
  end.

Definition do_rmtree (env : Collaborators) (d : string) : M unit := λ w,
  match rmtree_error env d with
  | None => mkOutcome (Ok tt) (mkWorld (repositories w) (chunk_store w) (scratch w ∖ {[d]}))
              [EvRmtree d true]
  | Some e => mkOutcome (Raise e) w [EvRmtree d false]
  end.

(** [chunk_file] and [chunk_repository] hand back what they produced together
    with the exception they raised, if any: the engine's [chunks] list keeps
    what was appended before the exception. *)
Definition do_chunk_file (env : Collaborators) (rd path repository : string)
  : M (Result (list Chunk)) := λ w,
  match chunk_file env rd path repository with
  | Ok cs => mkOutcome (Ok (Ok cs)) w [EvChunkFile path true]
  | Raise e => mkOutcome (Ok (Raise e)) w [EvChunkFile path false]
  end.

Definition do_chunk_repository (env : Collaborators) (repository rd : string)
  : M (list Chunk * option exn) := λ w,
  let r := chunk_repository env repository rd in
  mkOutcome (Ok r) w [EvChunkRepository (bool_decide (r.2 = None))].

Fixpoint for_each {A} (l : list A) (body : A → M unit) : M unit :=
  match l with
  | [] => ret tt
  | x :: l' => let! _ := body x in for_each l' body
  end.

(** ** The engine: [SearchEngine.index_repository] *)

(** The local variables of [index_repository]. *)
Record Locals := mkLocals {
  repo_info : Info;
  repo_dir : option string;
  temp_dir : option string;
  need_download : bool;
  need_chunking : bool;
  need_embedding : bool;
  files_to_chunk : gset string;
  files_to_delete : gset string;
  chunks : list Chunk
}.

Definition set_repo_info (v : Info) (st : Locals) : Locals :=
  mkLocals v (repo_dir st) (temp_dir st) (need_download st) (need_chunking st)
    (need_embedding st) (files_to_chunk st) (files_to_delete st) (chunks st).
Definition set_repo_dir (v : option string) (st : Locals) : Locals :=
  mkLocals (repo_info st) v (temp_dir st) (need_download st) (need_chunking st)
    (need_embedding st) (files_to_chunk st) (files_to_delete st) (chunks st).
Definition set_temp_dir (v : option string) (st : Locals) : Locals :=
  mkLocals (repo_info st) (repo_dir st) v (need_download st) (need_chunking st)
    (need_embedding st) (files_to_chunk st) (files_to_delete st) (chunks st).
Definition set_need_chunking (v : bool) (st : Locals) : Locals :=
  mkLocals (repo_info st) (repo_dir st) (temp_dir st) (need_download st) v
    (need_embedding st) (files_to_chunk st) (files_to_delete st) (chunks st).
Definition set_files_to_chunk (v : gset string) (st : Locals) : Locals :=
  mkLocals (repo_info st) (repo_dir st) (temp_dir st) (need_download st) (need_chunking st)
    (need_embedding st) v (files_to_delete st) (chunks st).
Definition set_files_to_delete (v : gset string) (st : Locals) : Locals :=
  mkLocals (repo_info st) (repo_dir st) (temp_dir st) (need_download st) (need_chunking st)
    (need_embedding st) (files_to_chunk st) v (chunks st).
Definition set_chunks (v : list Chunk) (st : Locals) : Locals :=
  mkLocals (repo_info st) (repo_dir st) (temp_dir st) (need_download st) (need_chunking st)
    (need_embedding st) (files_to_chunk st) (files_to_delete st) v.

(** *** Lines 77-149: what can be skipped *)

Inductive Planned :=
| ReturnExisting (e : Info)      (* line 132: [return existing_repo] *)
| Continue (st : Locals).

Definition same_commit (e current : Info) (force_refresh : bool) : bool :=
  opt_str_truthy (RepositoryInfo.commit_hash e)
  && bool_decide (RepositoryInfo.commit_hash e = RepositoryInfo.commit_hash current)
  && negb force_refresh.

Definition check_existing (existing : option Info) (current : Info)
    (force_refresh force_redownload force_rechunk force_reembed : bool) : Planned :=
  let start := mkLocals current None None true true true ∅ ∅ [] in
  match existing with
  | Some e =>
    if same_commit e current force_refresh then
      let nd :=
        if force_redownload then true
        else if RepositoryInfo.download_successful e then false
        else true in
      let nc :=
        if negb nd then
          if force_rechunk then true
          else if RepositoryInfo.chunking_successful e then false
          else true
        else true in
      let ne :=
        if negb nd then
          if negb nc then
            if force_reembed then true
            else if RepositoryInfo.embedding_successful e then false
            else true
          else true
        else true in
      if negb nd && negb nc && negb ne then ReturnExisting e
      else Continue (mkLocals current None None nd nc ne ∅ ∅ [])
    else
      let r1 :=
        if dict_truthy (RepositoryInfo.file_hashes e)
        then RepositoryInfo.set_file_hashes (RepositoryInfo.file_hashes e) current
        else current in
      let r2 := RepositoryInfo.set_num_chunks (RepositoryInfo.num_chunks e) r1 in
      let r3 := RepositoryInfo.set_num_files (RepositoryInfo.num_files e) r2 in
      Continue (set_repo_info r3 start)
  | None => Continue start
  end.

(** *** Lines 162-193: the change set *)

(** Lines 169-173: [for file_path, file_hash in new_file_hashes.items()]. *)
Definition changed_files (old new : gmap string string) : gset string :=
  foldl (λ acc kv,
           if negb (bool_decide (is_Some (old !! kv.1)))
              || negb (bool_decide (old !! kv.1 = Some kv.2))
           then acc ∪ {[kv.1]} else acc)
        ∅ (map_to_list new).

(** Lines 176-179: [for file_path in old_file_hashes]. *)
Definition deleted_files (old new : gmap string string) : gset string :=
  foldl (λ acc kv,
           if negb (bool_decide (is_Some (new !! kv.1)))
           then acc ∪ {[kv.1]} else acc)
        ∅ (map_to_list old).

(** The [if]/[else] of lines 163-193, run after a successful fetch. *)
Definition scope_files (env : Collaborators) (existing : option Info)
    (downloaded : Info) (force_rechunk : bool) (st : Locals) : Locals :=
  match existing with
  | Some e =>
    if dict_truthy (RepositoryInfo.file_hashes e) then
      let new_file_hashes := RepositoryInfo.file_hashes downloaded in
      let old_file_hashes := RepositoryInfo.file_hashes e in
      let st1 := set_files_to_chunk (changed_files old_file_hashes new_file_hashes) st in
      let st2 := set_files_to_delete (deleted_files old_file_hashes new_file_hashes) st1 in
      if set_truthy (files_to_chunk st2) && negb force_rechunk
      then set_need_chunking true st2
      else st2
    else
      let st1 := set_need_chunking true st in
      match repo_dir st1 with
      | Some rd => set_files_to_chunk (list_to_set (get_text_files env rd)) st1
      | None => st1
      end
  | None =>
    let st1 := set_need_chunking true st in
    match repo_dir st1 with
    | Some rd => set_files_to_chunk (list_to_set (get_text_files env rd)) st1
    | None => st1
    end
  end.

(** *** Step 1, lines 151-208: download *)

Definition download_stage (env : Collaborators) (repository : string)
    (existing : option Info) (force_rechunk : bool) (st : Locals) : M Locals :=
  if need_download st then
    let! d := do_mkdtemp env in
    let st0 := set_temp_dir (Some d) st in
    try_except
      (let! fetched := do_fetch env repository d in
       let downloaded_repo_info := fetched.1 in
       let st1 := set_repo_dir fetched.2 st0 in
       let st2 := scope_files env existing downloaded_repo_info force_rechunk st1 in
       let r :=
         RepositoryInfo.set_file_hashes (RepositoryInfo.file_hashes downloaded_repo_info)
           (RepositoryInfo.set_download_successful true
              (RepositoryInfo.set_num_files (RepositoryInfo.num_files downloaded_repo_info)
                 (repo_info st2))) in
       let! _ := add_repository r in
       ret (set_repo_info r st2))
      (λ e,
       let! _ := add_repository (RepositoryInfo.set_download_successful false (repo_info st0)) in
       raise e)
  else ret st.

(** *** Step 2, lines 210-266: chunk *)

(** Lines 224-236: [for file_path in files_to_chunk], the files being given
    in the order of the visit; returns the chunks gathered and the exception
    that ended the loop, if any. *)
Fixpoint chunk_changed_files (env : Collaborators) (repository rd : string)
    (files : list string) (acc : list Chunk) : M (list Chunk * option exn) :=
  match files with
  | [] => ret (acc, None)
  | file_path :: rest =>
    if path_is_file env rd file_path then
      let! _ := delete_file_chunks repository file_path in
      if is_text_file env rd file_path then
        let! r := do_chunk_file env rd file_path repository in
        match r with
        | Ok file_chunks => chunk_changed_files env repository rd rest (acc ++ file_chunks)
        | Raise e => ret (acc, Some e)
        end
      else chunk_changed_files env repository rd rest acc
    else chunk_changed_files env repository rd rest acc
  end.

Definition is_decode_error (e : exn) : bool :=
  match e with UnicodeDecodeError => true | OtherError _ => false end.

(** The end of both [try] blocks of step 2 and their [except] handlers
    (lines 238-246 and 258-266). *)
Definition finish_chunking (cs : list Chunk) (err : option exn) (st : Locals) : M Locals :=
  match err with
  | None =>
    let r := RepositoryInfo.set_chunking_successful true (repo_info st) in
    let! _ := add_repository r in
    ret (set_repo_info r (set_chunks cs st))
  | Some e =>
    let r := RepositoryInfo.set_chunking_successful false (repo_info st) in
    let! _ := add_repository r in
    if is_decode_error e then ret (set_repo_info r (set_chunks cs st))
    else raise e
  end.

Definition chunk_stage (env : Collaborators) (repository : string)
    (existing : option Info) (force_rechunk : bool) (st : Locals) : M Locals :=
  match repo_dir st with
  | Some rd =>
    if need_chunking st then
      if set_truthy (files_to_chunk st) && negb force_rechunk then
        let! _ := (if set_truthy (files_to_delete st)
                   then for_each (elements (files_to_delete st)) (delete_file_chunks repository)
                   else ret tt) in
        let! out := chunk_changed_files env repository rd (elements (files_to_chunk st)) [] in
        finish_chunking out.1 out.2 st
      else
        let! _ := (match existing with
                   | Some _ => delete_repository_chunks repository
                   | None => ret tt
                   end) in
        let! out := do_chunk_repository env repository rd in
        finish_chunking out.1 out.2 st
    else ret st
  | None => ret st
  end.

(** *** Step 3, lines 268-283: embed and store *)

Definition embed_stage (env : Collaborators) (st : Locals) : M Locals :=
  if need_embedding st && (list_truthy (chunks st) || negb (need_chunking st)) then
    try_except
      (let! r0 := (if list_truthy (chunks st)
                   then let! _ := store_chunks env (chunks st) in
                        ret (RepositoryInfo.set_num_chunks (length (chunks st)) (repo_info st))
                   else ret (repo_info st)) in
       let r := RepositoryInfo.set_last_indexed (Some (now env))
                  (RepositoryInfo.set_embedding_successful true r0) in
       let! _ := add_repository r in
       ret (set_repo_info r st))
      (λ e,
       let! _ := add_repository (RepositoryInfo.set_embedding_successful false (repo_info st)) in
       raise e)
  else ret st.

(** *** Lines 285-290: cleanup *)

Definition cleanup (env : Collaborators) (st : Locals) : M unit :=
  if opt_str_truthy (temp_dir st) then
    match temp_dir st with
    | Some d => try_except (do_rmtree env d) (λ _, ret tt)
    | None => ret tt
    end
  else ret tt.

(** *** The whole of [index_repository] *)

(** Lines 151-292: the three steps, the cleanup and the [return]. *)
Definition run_stages (env : Collaborators) (repository : string)
    (existing_repo : option Info) (force_rechunk : bool) (st : Locals) : M Info :=
  let! st := download_stage env repository existing_repo force_rechunk st in
  let! st := chunk_stage env repository existing_repo force_rechunk st in
  let! st := embed_stage env st in
  let! _ := cleanup env st in
  ret (repo_info st).

Definition index_repository (env : Collaborators) (repository : string)
    (force_refresh force_redownload force_rechunk force_reembed : bool) : M Info :=
  let force_redownload := if force_refresh then true else force_redownload in
  let force_rechunk := if force_refresh then true else force_rechunk in
  let force_reembed := if force_refresh then true else force_reembed in
  let! current_repo_info := do_get_repository_info env repository in
  let! existing_repo := get_repository repository in
  match check_existing existing_repo current_repo_info
          force_refresh force_redownload force_rechunk force_reembed with
  | ReturnExisting e => ret e
  | Continue st => run_stages env repository existing_repo force_rechunk st
  end.

(** ** Observations on a run *)

(** The states a run wrote to the persisted store, in order. *)
Definition persisted (evs : list Event) : list Info :=
  omap (λ ev, match ev with EvAddRepository r => Some r | _ => None end) evs.

Definition is_download (ev : Event) : bool :=
  match ev with EvMkdtemp _ | EvFetch _ _ => true | _ => false end.
Definition is_chunking (ev : Event) : bool :=
  match ev with
  | EvDeleteFileChunks _ _ | EvDeleteRepositoryChunks _
  | EvChunkFile _ _ | EvChunkRepository _ => true
  | _ => false
  end.
Definition is_embedding (ev : Event) : bool :=
  match ev with EvStoreChunks _ _ => true | _ => false end.
Definition is_persist (ev : Event) : bool :=
  match ev with EvAddRepository _ => true | _ => false end.

(** The stage-dependency invariant of a persisted state. *)
Definition stage_invariant (r : Info) : Prop :=
  (RepositoryInfo.chunking_successful r = true → RepositoryInfo.download_successful r = true)
  ∧ (RepositoryInfo.embedding_successful r = true → RepositoryInfo.chunking_successful r = true).

(** ** Definitions used in the statements *)

(** The identity of a state: which repository and which snapshot it is
    about.  No assignment of the engine changes it. *)
Definition same_key (r r' : Info) : Prop :=
  RepositoryInfo.commit_hash r = RepositoryInfo.commit_hash r'
  ∧ RepositoryInfo.full_name r = RepositoryInfo.full_name r'.

(** Computations of the chunk step that gather chunks: they never raise, log
    only chunking events and touch only the chunk store. *)
Definition gathers {A} (m : M A) : Prop :=
  ∀ w, (∃ a, result (m w) = Ok a)
       ∧ Forall (λ ev, is_chunking ev = true) (events (m w))
       ∧ repositories (world (m w)) = repositories w
       ∧ scratch (world (m w)) = scratch w.

(** Either the chunk step is skipped, or it gathers chunks and then persists
    its flag exactly once; it raises only on an error that is not a decode
    error, after persisting [chunking_successful = False]. *)
Inductive ChunkShape (st : Locals) (w : World) (o : Outcome Locals) : Prop :=
| chunk_skipped :
    o = mkOutcome (Ok st) w [] → ChunkShape st w o
| chunk_ran (evs : list Event) (cs : list Chunk) (b : bool) :
    let r := RepositoryInfo.set_chunking_successful b (repo_info st) in
    is_Some (repo_dir st) →
    need_chunking st = true →
    Forall (λ ev, is_chunking ev = true) evs →
    events o = evs ++ [EvAddRepository r] →
    repositories (world o) = <[RepositoryInfo.full_name r := r]> (repositories w) →
    scratch (world o) = scratch w →
    (result o = Ok (set_repo_info r (set_chunks cs st))
     ∨ (b = false ∧ ∃ e, is_decode_error e = false ∧ result o = Raise e)) →
    ChunkShape st w o.

(** The four ways the embed step can go. *)
Inductive EmbedShape (env : Collaborators) (st : Locals) (w : World)
    (o : Outcome Locals) : Prop :=
| embed_skipped :
    need_embedding st && (list_truthy (chunks st) || negb (need_chunking st)) = false →
    o = mkOutcome (Ok st) w [] →
    EmbedShape env st w o
| embed_nothing_to_store :
    let r := RepositoryInfo.set_last_indexed (Some (now env))
               (RepositoryInfo.set_embedding_successful true (repo_info st)) in
    need_embedding st = true → need_chunking st = false → chunks st = [] →
    o = mkOutcome (Ok (set_repo_info r st))
          (mkWorld (<[RepositoryInfo.full_name r := r]> (repositories w))
             (chunk_store w) (scratch w))
          [EvAddRepository r] →
    EmbedShape env st w o
| embed_stored :
    let r := RepositoryInfo.set_last_indexed (Some (now env))
               (RepositoryInfo.set_embedding_successful true
                  (RepositoryInfo.set_num_chunks (length (chunks st)) (repo_info st))) in
    need_embedding st = true → chunks st ≠ [] →
    store_chunks_error env (chunks st) = None →
    o = mkOutcome (Ok (set_repo_info r st))
          (mkWorld (<[RepositoryInfo.full_name r := r]> (repositories w))
             (chunk_store w ++ chunks st) (scratch w))
          [EvStoreChunks (chunks st) true; EvAddRepository r] →
    EmbedShape env st w o
| embed_failed (e : exn) :
    let r := RepositoryInfo.set_embedding_successful false (repo_info st) in
    need_embedding st = true → chunks st ≠ [] →
    store_chunks_error env (chunks st) = Some e →
    o = mkOutcome (Raise e)
          (mkWorld (<[RepositoryInfo.full_name r := r]> (repositories w))
             (chunk_store w) (scratch w))
          [EvStoreChunks (chunks st) false; EvAddRepository r] →
    EmbedShape env st w o.

(** The cleanup never raises and touches only the scratch directories. *)
Inductive CleanupShape (env : Collaborators) (st : Locals) (w : World)
    (o : Outcome unit) : Prop :=
| cleanup_nothing :
    opt_str_truthy (temp_dir st) = false →
    o = mkOutcome (Ok tt) w [] →
    CleanupShape env st w o
| cleanup_removed (d : string) :
    temp_dir st = Some d →
    o = mkOutcome (Ok tt)
          (mkWorld (repositories w) (chunk_store w) (scratch w ∖ {[d]}))
          [EvRmtree d true] →
    CleanupShape env st w o
| cleanup_failed (d : string) :
    temp_dir st = Some d →
    o = mkOutcome (Ok tt) w [EvRmtree d false] →
    CleanupShape env st w o.

(** Concrete collaborators and states for the examples. *)
Module Samples.

Definition observed : Info :=
  RepositoryInfo.fresh "a" "b" "https://github.com/a/b" (Some "c2").

Definition chunk_for (repository path : string) : Chunk :=
  DocumentChunk.mk (repository +:+ "/" +:+ path +:+ "/1") repository "text" (Some path).

Definition new_hashes : gmap string string := {["x.py" := "h1b"; "z.md" := "h3"]}.
Definition old_hashes : gmap string string :=
  {["x.py" := "h1"; "y.md" := "h2"; "z.md" := "h3"]}.

(** A healthy set of collaborators: the repository a/b is at commit c2 with
    the files x.py and z.md, every call succeeds. *)
Definition healthy : Collaborators := {|
  get_repository_info := λ _, Ok observed;
  fetch_repository_contents := λ _ d,
    Ok (RepositoryInfo.set_num_files 2 (RepositoryInfo.set_file_hashes new_hashes observed),
        Some d);
  get_text_files := λ _, ["x.py"; "z.md"];
  path_is_file := λ _ _, true;
  is_text_file := λ _ _, true;
  chunk_file := λ _ path repository, Ok [chunk_for repository path];
  chunk_repository := λ repository _,
    ([chunk_for repository "x.py"; chunk_for repository "z.md"], None);
  store_chunks_error := λ _, None;
  mkdtemp := λ _, "/tmp/reposearch_0";
  rmtree_error := λ _, None;
  now := 1700000000%Z
|}.

(** The same, but the download fails. *)
Definition offline : Collaborators := {|
  get_repository_info := get_repository_info healthy;
  fetch_repository_contents := λ _ _, Raise (OtherError "connection reset");
  get_text_files := get_text_files healthy;
  path_is_file := path_is_file healthy;
  is_text_file := is_text_file healthy;
  chunk_file := chunk_file healthy;
  chunk_repository := chunk_repository healthy;
  store_chunks_error := store_chunks_error healthy;
  mkdtemp := mkdtemp healthy;
  rmtree_error := rmtree_error healthy;
  now := now healthy
|}.

(** The same, but z.md cannot be decoded. *)
Definition undecodable : Collaborators := {|
  get_repository_info := get_repository_info healthy;
  fetch_repository_contents := fetch_repository_contents healthy;
  get_text_files := get_text_files healthy;
  path_is_file := path_is_file healthy;
  is_text_file := is_text_file healthy;
  chunk_file := λ _ path repository,
    if bool_decide (path = "z.md") then Raise UnicodeDecodeError
    else Ok [chunk_for repository path];
  chunk_repository := chunk_repository healthy;
  store_chunks_error := store_chunks_error healthy;
  mkdtemp := mkdtemp healthy;
  rmtree_error := rmtree_error healthy;
  now := now healthy
|}.

(** The same, but the chunker fails with an error that is not a decode
    error. *)
Definition crashing_chunker : Collaborators := {|
  get_repository_info := get_repository_info healthy;
  fetch_repository_contents := fetch_repository_contents healthy;
  get_text_files := get_text_files healthy;
  path_is_file := path_is_file healthy;
  is_text_file := is_text_file healthy;
  chunk_file := λ _ _ _, Raise (OtherError "out of memory");
  chunk_repository := chunk_repository healthy;
  store_chunks_error := store_chunks_error healthy;
  mkdtemp := mkdtemp healthy;
  rmtree_error := rmtree_error healthy;
  now := now healthy
|}.

(** The same, but embedding and storing the chunks fails. *)
Definition failing_embedder : Collaborators := {|
  get_repository_info := get_repository_info healthy;
  fetch_repository_contents := fetch_repository_contents healthy;
  get_text_files := get_text_files healthy;
  path_is_file := path_is_file healthy;
  is_text_file := is_text_file healthy;
  chunk_file := chunk_file healthy;
  chunk_repository := chunk_repository healthy;
  store_chunks_error := λ _, Some (OtherError "rate limit");
  mkdtemp := mkdtemp healthy;
  rmtree_error := rmtree_error healthy;
  now := now healthy
|}.

(** The same, but the chunker finds nothing to chunk. *)
Definition chunkless : Collaborators := {|
  get_repository_info := get_repository_info healthy;
  fetch_repository_contents := fetch_repository_contents healthy;
  get_text_files := get_text_files healthy;
  path_is_file := path_is_file healthy;
  is_text_file := is_text_file healthy;
  chunk_file := λ _ _ _, Ok [];
  chunk_repository := λ _ _, ([], None);
  store_chunks_error := store_chunks_error healthy;
  mkdtemp := mkdtemp healthy;
  rmtree_error := rmtree_error healthy;
  now := now healthy
|}.

(** The info after a successful download by [healthy]. *)
Definition downloaded : Info :=
  RepositoryInfo.set_file_hashes new_hashes
    (RepositoryInfo.set_download_successful true
       (RepositoryInfo.set_num_files 2 observed)).

(** The state a complete run at commit [h] leaves behind. *)
Definition indexed (h : string) (hashes : gmap string string) (d c e : bool) : Info :=
  RepositoryInfo.mk "a" "b" "https://github.com/a/b" (Some 1600000000%Z) 3 3 (Some h)
    d c e hashes.

Definition empty_world : World := mkWorld ∅ [] ∅.

Definition world_with (r : Info) (cs : list Chunk) : World :=
  mkWorld {["a/b" := r]} cs ∅.

End Samples.

(** The previously persisted hashes the download compares with. *)
Definition old_hashes_of (existing : option Info) : gmap string string :=
  match existing with
  | Some e => RepositoryInfo.file_hashes e
  | None => ∅
  end.

(** What the loop of lines 224-236 gathers, as a function of the
    collaborators alone. *)
Fixpoint changed_files_chunks (env : Collaborators) (repository rd : string)
    (files : list string) (acc : list Chunk) : list Chunk * option exn :=
  match files with
  | [] => (acc, None)
  | file_path :: rest =>
    if path_is_file env rd file_path then
      if is_text_file env rd file_path then
        match chunk_file env rd file_path repository with
        | Ok file_chunks => changed_files_chunks env repository rd rest (acc ++ file_chunks)
        | Raise e => (acc, Some e)
        end
      else changed_files_chunks env repository rd rest acc
    else changed_files_chunks env repository rd rest acc
  end.

Definition diff_event (repository : string) (files : list string) (ev : Event) : Prop :=
  (∃ p, ev = EvDeleteFileChunks repository p) ∨ (∃ p ok, ev = EvChunkFile p ok ∧ p ∈ files).

(** No chunk of [repository] in the store refers to a file of [deleted]. *)
Definition no_chunks_of (repository : string) (deleted : gset string)
    (store : list Chunk) : Prop :=
  ∀ c p, c ∈ store → DocumentChunk.repository c = repository →
         DocumentChunk.file_path c = Some p → p ∉ deleted.

(** The part of the chunk step before [finish_chunking]: the deletions and
    the chunker calls, diff-scoped or for the whole repository. *)
Definition gather (env : Collaborators) (repository rd : string) (existing : option Info)
    (diff : bool) (to_chunk to_delete : gset string) : M (list Chunk * option exn) :=
  if diff then
    let! _ := (if set_truthy to_delete
               then for_each (elements to_delete) (delete_file_chunks repository)
               else ret tt) in
    chunk_changed_files env repository rd (elements to_chunk) []
  else
    let! _ := (match existing with
               | Some _ => delete_repository_chunks repository
               | None => ret tt
               end) in
    do_chunk_repository env repository rd.

(** What the chunk step hands to the embed step. *)
Definition produced_chunks (env : Collaborators) (repository rd : string)
    (diff : bool) (to_chunk : gset string) : list Chunk * option exn :=
  if diff then changed_files_chunks env repository rd (elements to_chunk) []
  else chunk_repository env repository rd.

(** The files the chunk step works on after a download that follows the
    prior state [e] (lines 163-193): the changed and added files when [e]
    recorded file hashes, every text file of the download when it recorded
    none. *)
Definition chunk_scope (env : Collaborators) (rd : string) (e downloaded : Info)
  : gset string :=
  if dict_truthy (RepositoryInfo.file_hashes e)
  then changed_files (RepositoryInfo.file_hashes e) (RepositoryInfo.file_hashes downloaded)
  else list_to_set (get_text_files env rd).

(** [c] is a chunk that [chunk_file] yields for a file of [files] that
    passes the tests of lines 227 and 232. *)
Definition chunked_from (env : Collaborators) (repository rd : string)
    (files : gset string) (c : Chunk) : Prop :=
  ∃ p cs, p ∈ files
          ∧ path_is_file env rd p = true ∧ is_text_file env rd p = true
          ∧ chunk_file env rd p repository = Ok cs ∧ c ∈ cs.

(** What the chunker yields for a scope: the chunks of its files, or those
    of the whole repository when the scope is empty (line 214).  It does not
    depend on the order in which the files are visited. *)
Definition chunker_yields (env : Collaborators) (repository rd : string)
    (scope : gset string) (c : Chunk) : Prop :=
  if set_truthy scope then chunked_from env repository rd scope c
  else c ∈ (chunk_repository env repository rd).1.

(** No chunker call for the scope raises. *)
Definition chunker_succeeds (env : Collaborators) (repository rd : string)
    (scope : gset string) : Prop :=
  if set_truthy scope
  then ∀ p, p ∈ scope → path_is_file env rd p = true → is_text_file env rd p = true →
            ∃ cs, chunk_file env rd p repository = Ok cs
  else (chunk_repository env repository rd).2 = None.

Module ChangedCommit.
Import Samples.

(** a/b was fully indexed at commit c1 with x.py, y.md and z.md; at c2,
    x.py has changed, y.md is gone and z.md is as before. *)
Definition prior : Info := indexed "c1" old_hashes true true true.
Definition before : World :=
  world_with prior [chunk_for "a/b" "x.py"; chunk_for "a/b" "y.md"; chunk_for "a/b" "z.md"].
Definition run : Outcome Info :=
  index_repository healthy "a/b" false false false false before.

(** The same prior state and chunk store, but with no file hashes
    recorded. *)
Definition prior_without_hashes : Info := indexed "c1" ∅ true true true.
Definition before_without_hashes : World :=
  world_with prior_without_hashes
    [chunk_for "a/b" "x.py"; chunk_for "a/b" "y.md"; chunk_for "a/b" "z.md"].
Definition run_without_hashes : Outcome Info :=
  index_repository healthy "a/b" false false false false before_without_hashes.

(** The first run again, with a chunker that finds nothing to chunk. *)
Definition run_without_chunks : Outcome Info :=
  index_repository chunkless "a/b" false false false false before.
End ChangedCommit.

(** ** [SearchEngine.search], lines 294-314 *)

Module Config.
(** The part of [repo_search.config] that [search] reads.  Scores are floats
    in the source; [search] only tests their truthiness, so the type is left
    open and the test is an argument. *)
Record t (Score : Type) := mk {
  max_results : Z;
  score_threshold : Score
}.
Arguments mk {Score}.
Arguments max_results {Score}.
Arguments score_threshold {Score}.
End Config.

Definition int_truthy (n : Z) : bool := negb (n =? 0)%Z.

(** [x or default] for an optional argument. *)
Definition or_default {A} (truthy : A → bool) (x : option A) (default : A) : A :=
  match x with
  | Some a => if truthy a then a else default
  | None => default
  end.

Definition search {Score Results : Type} (score_truthy : Score → bool)
    (config : Config.t Score)
    (db_search : string → option string → Z → Score → Results)
    (query : string) (repository : option string)
    (limit : option Z) (score_threshold : option Score) : Results :=
  let limit := or_default int_truthy limit (Config.max_results config) in
  let score_threshold :=
    or_default score_truthy score_threshold (Config.score_threshold config) in
  db_search query repository limit score_threshold.

(** ** More observations on a run *)

(** The collaborators with another outcome for [shutil.rmtree]. *)
Definition with_rmtree_error (f : string → option exn) (env : Collaborators)
  : Collaborators := {|
  get_repository_info := get_repository_info env;
  fetch_repository_contents := fetch_repository_contents env;
  get_text_files := get_text_files env;
  path_is_file := path_is_file env;
  is_text_file := is_text_file env;
  chunk_file := chunk_file env;
  chunk_repository := chunk_repository env;
  store_chunks_error := store_chunks_error env;
  mkdtemp := mkdtemp env;
  rmtree_error := f;
  now := now env
|}.

(** The step an event belongs to; writes of the repository record occur in
    every step. *)
Definition is_cleanup (ev : Event) : bool :=
  match ev with EvRmtree _ _ => true | _ => false end.

(** A chunker call that raised. *)
Definition chunker_failed (ev : Event) : bool :=
  match ev with
  | EvChunkFile _ false | EvChunkRepository false => true
  | _ => false
  end.

(** The five ways a call of [index_repository] can go: the repository is
    not resolved; the early return of line 132; the download is skipped, so
    that only step 3 can act; the download fails; the download succeeds and
    steps 2 and 3 and the cleanup follow. *)
Inductive RunShape (env : Collaborators) (repository : string)
    (fr fd fc fe : bool) (w : World) (o : Outcome Info) : Prop :=
| run_unresolved (e : exn) :
    get_repository_info env repository = Raise e →
    o = mkOutcome (Raise e) w [] →
    RunShape env repository fr fd fc fe w o
| run_early (current e : Info) :
    get_repository_info env repository = Ok current →
    repositories w !! repository = Some e →
    o = mkOutcome (Ok e) w [] →
    RunShape env repository fr fd fc fe w o
| run_without_download (current : Info) (st : Locals) :
    get_repository_info env repository = Ok current →
    check_existing (repositories w !! repository) current fr (if fr then true else fd)
      (if fr then true else fc) (if fr then true else fe) = Continue st →
    need_download st = false →
    o = mkOutcome
          (match result (embed_stage env st w) with
           | Ok st' => Ok (repo_info st')
           | Raise e => Raise e
           end)
          (world (embed_stage env st w)) (events (embed_stage env st w)) →
    RunShape env repository fr fd fc fe w o
| run_download_failed (current : Info) (st : Locals) (e : exn) :
    get_repository_info env repository = Ok current →
    check_existing (repositories w !! repository) current fr (if fr then true else fd)
      (if fr then true else fc) (if fr then true else fe) = Continue st →
    fetch_repository_contents env repository (mkdtemp env (scratch w)) = Raise e →
    o = mkOutcome (Raise e)
          (mkWorld
             (<[RepositoryInfo.full_name (repo_info st) :=
                  RepositoryInfo.set_download_successful false (repo_info st)]>
                (repositories w))
             (chunk_store w) ({[mkdtemp env (scratch w)]} ∪ scratch w))
          [EvMkdtemp (mkdtemp env (scratch w)); EvFetch repository false;
           EvAddRepository (RepositoryInfo.set_download_successful false (repo_info st))] →
    RunShape env repository fr fd fc fe w o
| run_downloaded (current : Info) (st : Locals) (dl : Info) (rd : option string) :
    let d := mkdtemp env (scratch w) in
    let existing := repositories w !! repository in
    let st2 := scope_files env existing dl (if fr then true else fc)
                 (set_repo_dir rd (set_temp_dir (Some d) st)) in
    let r := RepositoryInfo.set_file_hashes (RepositoryInfo.file_hashes dl)
               (RepositoryInfo.set_download_successful true
                  (RepositoryInfo.set_num_files (RepositoryInfo.num_files dl) (repo_info st))) in
    let w1 := mkWorld (<[RepositoryInfo.full_name r := r]> (repositories w)) (chunk_store w)
                ({[d]} ∪ scratch w) in
    let pre := [EvMkdtemp d; EvFetch repository true; EvAddRepository r] in
    let oc := chunk_stage env repository existing (if fr then true else fc)
                (set_repo_info r st2) w1 in
    get_repository_info env repository = Ok current →
    check_existing existing current fr (if fr then true else fd)
      (if fr then true else fc) (if fr then true else fe) = Continue st →
    need_download st = true →
    fetch_repository_contents env repository d = Ok (dl, rd) →
    o = match result oc with
        | Raise e => mkOutcome (Raise e) (world oc) (pre ++ events oc)
        | Ok st3 =>
          match result (embed_stage env st3 (world oc)) with
          | Raise e =>
            mkOutcome (Raise e) (world (embed_stage env st3 (world oc)))
              (pre ++ events oc ++ events (embed_stage env st3 (world oc)))
          | Ok st4 =>
            mkOutcome (Ok (repo_info st4))
              (world (cleanup env st4 (world (embed_stage env st3 (world oc)))))
              (pre ++ events oc ++ events (embed_stage env st3 (world oc))
               ++ events (cleanup env st4 (world (embed_stage env st3 (world oc)))))
          end
        end →
    RunShape env repository fr fd fc fe w o.

(** The locals and the store agree once something was written: the record
    stored under the repository's name is [repo_info], the last one written. *)
Definition synced (st : Locals) (w : World) (written : list Info) : Prop :=
  written ≠ [] →
  repositories w !! RepositoryInfo.full_name (repo_info st) = Some (repo_info st)
  ∧ last written = Some (repo_info st).

Definition rmtree_succeeds (env : Collaborators) (d : string) : bool :=
  match rmtree_error env d with
  | None => true
  | Some _ => false
  end.




(** Either no chunker call failed, or exactly one did, as the last chunking
    event. *)
Definition fails_last (failed : bool) (evs : list Event) : Prop :=
  if failed
  then ∃ before x, evs = before ++ [x] ∧ chunker_failed x = true
                   ∧ Forall (λ ev, chunker_failed ev = false) before
  else Forall (λ ev, chunker_failed ev = false) evs.

(** ** Reasoning about computations *)

Lemma bind_unfold {A B} (m : M A) (k : A → M B) (w : World) :
  bind m k w =
  match result (m w) with
  | Ok a => mkOutcome (result (k a (world (m w)))) (world (k a (world (m w))))
              (events (m w) ++ events (k a (world (m w))))
  | Raise e => mkOutcome (Raise e) (world (m w)) (events (m w))
  end.
Proof. reflexivity. Qed.

Lemma events_bind {A B} (m : M A) (k : A → M B) (w : World) :
  events (bind m k w) =
  events (m w) ++ match result (m w) with
                  | Ok a => events (k a (world (m w)))
                  | Raise _ => []
                  end.
Proof.
  rewrite bind_unfold. destruct (result (m w)); simpl; [done | by rewrite app_nil_r].
Qed.

Lemma Forall_events_bind {A B} (P : Event → Prop) (m : M A) (k : A → M B) (w : World) :
  Forall P (events (m w)) →
  (∀ a w', Forall P (events (k a w'))) →
  Forall P (events (bind m k w)).
Proof.
  intros Hm Hk. rewrite events_bind. apply Forall_app. split; [done |].
  destruct (result (m w)); [apply Hk | constructor].
Qed.

Lemma Forall_events_try_except {A} (P : Event → Prop) (m : M A) (h : exn → M A) (w : World) :
  Forall P (events (m w)) →
  (∀ e w', Forall P (events (h e w'))) →
  Forall P (events (try_except m h w)).
Proof.
  intros Hm Hh. unfold try_except. destruct (result (m w)); simpl; [done |].
  apply Forall_app. split; [done | apply Hh].
Qed.

(** ** The stages, case by case *)

Section Stages.
Context (env : Collaborators) (repository : string).

Lemma download_stage_skip existing fc st w :
  need_download st = false →
  download_stage env repository existing fc st w = mkOutcome (Ok st) w [].
Proof. intros H. unfold download_stage. by rewrite H. Qed.

Lemma download_stage_raise existing fc st w e :
  need_download st = true →
  fetch_repository_contents env repository (mkdtemp env (scratch w)) = Raise e →
  let d := mkdtemp env (scratch w) in
  let r := RepositoryInfo.set_download_successful false (repo_info st) in
  download_stage env repository existing fc st w =
  mkOutcome (Raise e)
    (mkWorld (<[RepositoryInfo.full_name r := r]> (repositories w)) (chunk_store w)
       ({[d]} ∪ scratch w))
    [EvMkdtemp d; EvFetch repository false; EvAddRepository r].
Proof.
  intros Hn Hf. unfold download_stage. rewrite Hn.
  unfold bind, try_except, do_mkdtemp, do_fetch. simpl. by rewrite Hf.
Qed.

Lemma download_stage_ok existing fc st w dl rd :
  need_download st = true →
  fetch_repository_contents env repository (mkdtemp env (scratch w)) = Ok (dl, rd) →
  let d := mkdtemp env (scratch w) in
  let st2 := scope_files env existing dl fc (set_repo_dir rd (set_temp_dir (Some d) st)) in
  let r := RepositoryInfo.set_file_hashes (RepositoryInfo.file_hashes dl)
             (RepositoryInfo.set_download_successful true
                (RepositoryInfo.set_num_files (RepositoryInfo.num_files dl) (repo_info st2))) in
  download_stage env repository existing fc st w =
  mkOutcome (Ok (set_repo_info r st2))
    (mkWorld (<[RepositoryInfo.full_name r := r]> (repositories w)) (chunk_store w)
       ({[d]} ∪ scratch w))
    [EvMkdtemp d; EvFetch repository true; EvAddRepository r].
Proof.
  intros Hn Hf. unfold download_stage. rewrite Hn.
  unfold bind, try_except, do_mkdtemp, do_fetch. simpl. by rewrite Hf.
Qed.

Lemma chunk_stage_skip existing fc st w :
  repo_dir st = None →
  chunk_stage env repository existing fc st w = mkOutcome (Ok st) w [].
Proof. intros H. unfold chunk_stage. by rewrite H. Qed.

Lemma embed_stage_skip st w :
  need_embedding st && (list_truthy (chunks st) || negb (need_chunking st)) = false →
  embed_stage env st w = mkOutcome (Ok st) w [].
Proof. intros H. unfold embed_stage. by rewrite H. Qed.

Lemma embed_stage_no_chunks st w :
  need_embedding st = true → need_chunking st = false → chunks st = [] →
  let r := RepositoryInfo.set_last_indexed (Some (now env))
             (RepositoryInfo.set_embedding_successful true (repo_info st)) in
  embed_stage env st w =
  mkOutcome (Ok (set_repo_info r st))
    (mkWorld (<[RepositoryInfo.full_name r := r]> (repositories w)) (chunk_store w) (scratch w))
    [EvAddRepository r].
Proof.
  intros Hne Hnc Hc. unfold embed_stage. rewrite Hne, Hnc, Hc. reflexivity.
Qed.

Lemma cleanup_no_temp_dir st w :
  temp_dir st = None → cleanup env st w = mkOutcome (Ok tt) w [].
Proof. intros H. unfold cleanup. by rewrite H. Qed.

End Stages.

(** ** The shape of each stage's outcome *)

Lemma same_key_refl r : same_key r r.
Proof. by split. Qed.

Lemma same_key_trans r1 r2 r3 : same_key r1 r2 → same_key r2 r3 → same_key r1 r3.
Proof. intros [? ?] [? ?]. split; congruence. Qed.

Lemma persisted_app (a b : list Event) : persisted (a ++ b) = persisted a ++ persisted b.
Proof. unfold persisted. apply omap_app. Qed.

Lemma gathers_ret {A} (a : A) : gathers (ret a).
Proof. intros w. simpl. eauto. Qed.

Lemma gathers_bind {A B} (m : M A) (k : A → M B) :
  gathers m → (∀ a, gathers (k a)) → gathers (bind m k).
Proof.
  intros Hm Hk w. destruct (Hm w) as ([a Ha] & Hev & Hr & Hs).
  destruct (Hk a (world (m w))) as ([b Hb] & Hev' & Hr' & Hs').
  rewrite bind_unfold, Ha. simpl. repeat split.
  - eauto.
  - by apply Forall_app.
  - congruence.
  - congruence.
Qed.

Lemma gathers_delete_file_chunks repository path :
  gathers (delete_file_chunks repository path).
Proof. intros w. simpl. repeat split; eauto. Qed.

Lemma gathers_delete_repository_chunks repository :
  gathers (delete_repository_chunks repository).
Proof. intros w. simpl. repeat split; eauto. Qed.

Lemma gathers_do_chunk_file env rd path repository :
  gathers (do_chunk_file env rd path repository).
Proof.
  intros w. unfold do_chunk_file.
  destruct (chunk_file env rd path repository); simpl; repeat split; eauto.
Qed.

Lemma gathers_do_chunk_repository env repository rd :
  gathers (do_chunk_repository env repository rd).
Proof. intros w. simpl. repeat split; eauto. Qed.

Lemma gathers_for_each {A} (l : list A) (body : A → M unit) :
  (∀ x, gathers (body x)) → gathers (for_each l body).
Proof.
  intros Hb. induction l as [| x l IH]; simpl.
  - apply gathers_ret.
  - apply gathers_bind; [apply Hb | done].
Qed.

Lemma gathers_chunk_changed_files env repository rd files acc :
  gathers (chunk_changed_files env repository rd files acc).
Proof.
  revert acc. induction files as [| p files IH]; intros acc; simpl.
  - apply gathers_ret.
  - destruct (path_is_file env rd p); [| apply IH].
    apply gathers_bind; [apply gathers_delete_file_chunks |]. intros _.
    destruct (is_text_file env rd p); [| apply IH].
    apply gathers_bind; [apply gathers_do_chunk_file |]. intros [cs | e].
    + apply IH.
    + apply gathers_ret.
Qed.

Lemma finish_chunking_shape {A} (g : M A) (f : A → list Chunk * option exn)
    (st : Locals) (w : World) :
  gathers g →
  is_Some (repo_dir st) →
  need_chunking st = true →
  ChunkShape st w (bind g (λ out, finish_chunking (f out).1 (f out).2 st) w).
Proof.
  intros Hg Hrd Hnc. destruct (Hg w) as ([out Hout] & Hev & Hr & Hs).
  rewrite bind_unfold, Hout. unfold finish_chunking.
  destruct (f out) as [cs [e |]]; simpl.
  - destruct (is_decode_error e) eqn:He.
    + eapply (chunk_ran _ _ _ (events (g w)) cs false); simpl; eauto.
      * by rewrite Hr.
    + eapply (chunk_ran _ _ _ (events (g w)) cs false); simpl; eauto.
      * by rewrite Hr.
  - eapply (chunk_ran _ _ _ (events (g w)) cs true); simpl; eauto.
    by rewrite Hr.
Qed.

Lemma bind_assoc {A B C} (m : M A) (k : A → M B) (k' : B → M C) (w : World) :
  bind m (λ a, bind (k a) k') w = bind (bind m k) k' w.
Proof.
  rewrite !bind_unfold. destruct (result (m w)) as [a | e]; simpl; [| done].
  rewrite !bind_unfold. destruct (result (k a (world (m w)))); simpl; [| done].
  by rewrite app_assoc.
Qed.

Lemma chunk_stage_shape env repository existing fc st w :
  ChunkShape st w (chunk_stage env repository existing fc st w).
Proof.
  unfold chunk_stage. destruct (repo_dir st) as [rd |] eqn:Hrd; [| by apply chunk_skipped].
  destruct (need_chunking st) eqn:Hnc; [| by apply chunk_skipped].
  destruct (set_truthy (files_to_chunk st) && negb fc).
  - rewrite bind_assoc.
    apply (finish_chunking_shape _ (λ out, out)); [| by rewrite Hrd | done].
    apply gathers_bind; [| intros _; apply gathers_chunk_changed_files].
    destruct (set_truthy (files_to_delete st)); [| apply gathers_ret].
    apply gathers_for_each. intros p. apply gathers_delete_file_chunks.
  - rewrite bind_assoc.
    apply (finish_chunking_shape _ (λ out, out)); [| by rewrite Hrd | done].
    apply gathers_bind; [| intros _; apply gathers_do_chunk_repository].
    destruct existing; [apply gathers_delete_repository_chunks | apply gathers_ret].
Qed.

Lemma embed_stage_shape env st w : EmbedShape env st w (embed_stage env st w).
Proof.
  unfold embed_stage.
  destruct (need_embedding st && (list_truthy (chunks st) || negb (need_chunking st))) eqn:Hc;
    [| by apply embed_skipped].
  apply andb_true_iff in Hc as [Hne Hc].
  destruct (chunks st) as [| c cs] eqn:Hcs.
  - simpl in Hc. apply negb_true_iff in Hc. by apply embed_nothing_to_store.
  - unfold try_except, bind, store_chunks. simpl.
    destruct (store_chunks_error env (c :: cs)) as [e |] eqn:Hst; simpl.
    + apply (embed_failed _ _ _ _ e); [done | by rewrite Hcs | by rewrite Hcs |].
      by rewrite Hcs.
    + apply embed_stored; [done | by rewrite Hcs | by rewrite Hcs |]. by rewrite Hcs.
Qed.

Lemma cleanup_shape env st w : CleanupShape env st w (cleanup env st w).
Proof.
  unfold cleanup. destruct (opt_str_truthy (temp_dir st)) eqn:Ht; [| by apply cleanup_nothing].
  destruct (temp_dir st) as [d |] eqn:Hd; [| done].
  unfold try_except, do_rmtree. destruct (rmtree_error env d) eqn:Hr; simpl.
  - by apply (cleanup_failed _ _ _ _ d).
  - by apply (cleanup_removed _ _ _ _ d).
Qed.

(** What the download step does to the locals. *)
Ltac scope_files_cases :=
  unfold scope_files;
  repeat match goal with
         | |- context [match ?x with Some _ => _ | None => _ end] =>
             let E := fresh "E" in destruct x eqn:E; simpl
         | |- context [if ?b then _ else _] => destruct b; simpl
         end;
  simpl; try done.

Lemma scope_files_repo_info env existing dl fc st :
  repo_info (scope_files env existing dl fc st) = repo_info st.
Proof.
  scope_files_cases.
Qed.

Lemma scope_files_temp_dir env existing dl fc st :
  temp_dir (scope_files env existing dl fc st) = temp_dir st.
Proof.
  scope_files_cases.
Qed.

Lemma scope_files_repo_dir env existing dl fc st :
  repo_dir (scope_files env existing dl fc st) = repo_dir st.
Proof.
  scope_files_cases.
Qed.

(** The plan always starts from the freshly observed info, with no
    directory and no chunks. *)
Lemma check_existing_continue existing current fr fd fc fe st :
  check_existing existing current fr fd fc fe = Continue st →
  same_key (repo_info st) current
  ∧ repo_dir st = None ∧ temp_dir st = None ∧ chunks st = []
  ∧ (need_download st = false → ∃ e, existing = Some e ∧ repo_info st = current
                                      ∧ same_commit e current fr = true).
Proof.
  unfold check_existing. destruct existing as [e |].
  - destruct (same_commit e current fr) eqn:Hs.
    + match goal with |- context [if ?b then ReturnExisting _ else _] => destruct b end;
        [done |].
      intros [= <-]. simpl. repeat split; eauto.
    + intros [= <-]. simpl. destruct (dict_truthy _); repeat split; done.
  - intros [= <-]. simpl. repeat split; done.
Qed.

Lemma index_repository_raise env repository fr fd fc fe w e :
  get_repository_info env repository = Raise e →
  index_repository env repository fr fd fc fe w = mkOutcome (Raise e) w [].
Proof.
  intros H. unfold index_repository, bind, do_get_repository_info. simpl. by rewrite H.
Qed.

Lemma index_repository_unfold env repository fr fd fc fe w current :
  get_repository_info env repository = Ok current →
  index_repository env repository fr fd fc fe w =
  match check_existing (repositories w !! repository) current fr
          (if fr then true else fd) (if fr then true else fc) (if fr then true else fe) with
  | ReturnExisting e => mkOutcome (Ok e) w []
  | Continue st =>
      run_stages env repository (repositories w !! repository) (if fr then true else fc) st w
  end.
Proof.
  intros H. unfold index_repository, bind, do_get_repository_info, get_repository.
  simpl. rewrite H. simpl.
  destruct (check_existing _ _ _ _ _ _); simpl; [done |].
  by destruct (run_stages _ _ _ _ _ _).
Qed.

(** ** The run, path by path *)

Lemma cleanup_result env st w : result (cleanup env st w) = Ok tt.
Proof. by destruct (cleanup_shape env st w) as [? -> | ? ? -> | ? ? ->]. Qed.

Section Run.
Context (env : Collaborators) (repository : string).
Context (existing : option Info) (fc : bool).

(** Download skipped: no directory, so the chunk step is skipped too, and
    only the embed step may act. *)
Lemma run_stages_no_download st w :
  need_download st = false → repo_dir st = None → temp_dir st = None →
  let oe := embed_stage env st w in
  run_stages env repository existing fc st w =
  mkOutcome (match result oe with Ok st' => Ok (repo_info st') | Raise e => Raise e end)
    (world oe) (events oe).
Proof.
  intros Hd Hrd Htd. unfold run_stages.
  rewrite bind_unfold, download_stage_skip by done. simpl.
  rewrite bind_unfold, chunk_stage_skip by done. simpl.
  rewrite bind_unfold.
  destruct (embed_stage_shape env st w) as [? -> | ? ? ? ? -> | ? ? ? ? -> | ? ? ? ? ? ->];
    simpl; try done.
  - rewrite bind_unfold, cleanup_no_temp_dir by done. done.
  - rewrite bind_unfold, cleanup_no_temp_dir by done. done.
  - rewrite bind_unfold, cleanup_no_temp_dir by done. done.
Qed.

(** Download failed: the flag is persisted and the exception leaves. *)
Lemma run_stages_download_raise st w e :
  need_download st = true →
  fetch_repository_contents env repository (mkdtemp env (scratch w)) = Raise e →
  let d := mkdtemp env (scratch w) in
  let r := RepositoryInfo.set_download_successful false (repo_info st) in
  run_stages env repository existing fc st w =
  mkOutcome (Raise e)
    (mkWorld (<[RepositoryInfo.full_name r := r]> (repositories w)) (chunk_store w)
       ({[d]} ∪ scratch w))
    [EvMkdtemp d; EvFetch repository false; EvAddRepository r].
Proof.
  intros Hd Hf. unfold run_stages.
  rewrite bind_unfold, (download_stage_raise _ _ _ _ _ _ e) by done. done.
Qed.

(** Download succeeded: the three later steps follow. *)
Lemma run_stages_download_ok st w dl rd :
  need_download st = true →
  fetch_repository_contents env repository (mkdtemp env (scratch w)) = Ok (dl, rd) →
  let d := mkdtemp env (scratch w) in
  let st2 := scope_files env existing dl fc (set_repo_dir rd (set_temp_dir (Some d) st)) in
  let r := RepositoryInfo.set_file_hashes (RepositoryInfo.file_hashes dl)
             (RepositoryInfo.set_download_successful true
                (RepositoryInfo.set_num_files (RepositoryInfo.num_files dl) (repo_info st2))) in
  let w1 := mkWorld (<[RepositoryInfo.full_name r := r]> (repositories w)) (chunk_store w)
              ({[d]} ∪ scratch w) in
  let pre := [EvMkdtemp d; EvFetch repository true; EvAddRepository r] in
  let oc := chunk_stage env repository existing fc (set_repo_info r st2) w1 in
  run_stages env repository existing fc st w =
  match result oc with
  | Raise e => mkOutcome (Raise e) (world oc) (pre ++ events oc)
  | Ok st3 =>
    let oe := embed_stage env st3 (world oc) in
    match result oe with
    | Raise e => mkOutcome (Raise e) (world oe) (pre ++ events oc ++ events oe)
    | Ok st4 =>
      let ocl := cleanup env st4 (world oe) in
      mkOutcome (Ok (repo_info st4)) (world ocl)
        (pre ++ events oc ++ events oe ++ events ocl)
    end
  end.
Proof.
  intros Hd Hf. unfold run_stages.
  rewrite bind_unfold, (download_stage_ok _ _ _ _ _ _ dl rd) by done.
  cbn [result world events].
  rewrite bind_unfold. destruct (result (chunk_stage _ _ _ _ _ _)) as [st3 | e]; [| done].
  cbn [result world events].
  rewrite bind_unfold. destruct (result (embed_stage _ _ _)) as [st4 | e]; [| done].
  cbn [result world events].
  rewrite bind_unfold, cleanup_result. cbn [result world events ret].
  by rewrite app_nil_r.
Qed.

End Run.

(** ** What each step may log *)

Lemma chunk_stage_events env repository existing fc st w :
  Forall (λ ev, is_chunking ev = true ∨ is_persist ev = true)
    (events (chunk_stage env repository existing fc st w)).
Proof.
  destruct (chunk_stage_shape env repository existing fc st w)
    as [-> | evs cs b r _ _ Hevs -> _ _ _]; [constructor |].
  apply Forall_app. split.
  - eapply Forall_impl; [exact Hevs | auto].
  - constructor; [by right | constructor].
Qed.

Lemma embed_stage_events env st w :
  Forall (λ ev, is_embedding ev = true ∨ is_persist ev = true) (events (embed_stage env st w)).
Proof.
  destruct (embed_stage_shape env st w) as [? -> | ? ? ? ? -> | ? ? ? ? -> | ? ? ? ? ? ->];
    simpl; repeat (apply Forall_cons; split; [auto |]); constructor.
Qed.

Lemma cleanup_events env st w :
  Forall (λ ev, ∃ d ok, ev = EvRmtree d ok) (events (cleanup env st w)).
Proof.
  destruct (cleanup_shape env st w) as [? -> | ? ? -> | ? ? ->];
    simpl; repeat (apply Forall_cons; split; [eauto |]); constructor.
Qed.

(** After a successful download nothing else is logged as a download. *)
Lemma run_stages_download_ok_events env repository existing fc st w dl rd :
  need_download st = true →
  fetch_repository_contents env repository (mkdtemp env (scratch w)) = Ok (dl, rd) →
  ∃ r rest,
    events (run_stages env repository existing fc st w) =
    [EvMkdtemp (mkdtemp env (scratch w)); EvFetch repository true; EvAddRepository r] ++ rest
    ∧ Forall (λ ev, is_download ev = false) rest.
Proof.
  intros Hnd Hf. rewrite (run_stages_download_ok _ _ _ _ _ _ dl rd) by done.
  cbv zeta.
  match goal with |- context [EvAddRepository ?x] => exists x end.
  set (oc := chunk_stage _ _ _ _ _ _).
  assert (Forall (λ ev, is_download ev = false) (events oc)) as Hc.
  { eapply Forall_impl; [apply chunk_stage_events |].
    intros [] [H | H]; simpl in *; done. }
  assert (∀ st3 w2, Forall (λ ev, is_download ev = false) (events (embed_stage env st3 w2)))
    as He.
  { intros st3 w2. eapply Forall_impl; [apply embed_stage_events |].
    intros [] [H | H]; simpl in *; done. }
  assert (∀ st4 w3, Forall (λ ev, is_download ev = false) (events (cleanup env st4 w3)))
    as Hcl.
  { intros st4 w3. eapply Forall_impl; [apply cleanup_events |].
    by intros ev (d & ok & ->). }
  destruct (result oc) as [st3 | e].
  - destruct (result (embed_stage env st3 (world oc))) as [st4 | e]; simpl.
    + eexists. split; [reflexivity |]. repeat (apply Forall_app; split); auto.
    + eexists. split; [reflexivity |]. repeat (apply Forall_app; split); auto.
  - simpl. eexists. split; [reflexivity |]. done.
Qed.

(** A run in which the fetch failed is exactly: make the directory, fail
    to fetch, persist [download_successful = False], raise. *)
Lemma fetch_failed_inv env repository fr fd fc fe w :
  EvFetch repository false ∈ events (index_repository env repository fr fd fc fe w) →
  ∃ current st e,
    get_repository_info env repository = Ok current
    ∧ same_key (repo_info st) current
    ∧ index_repository env repository fr fd fc fe w =
      mkOutcome (Raise e)
        (mkWorld
           (<[RepositoryInfo.full_name (repo_info st) :=
                RepositoryInfo.set_download_successful false (repo_info st)]> (repositories w))
           (chunk_store w) ({[mkdtemp env (scratch w)]} ∪ scratch w))
        [EvMkdtemp (mkdtemp env (scratch w)); EvFetch repository false;
         EvAddRepository (RepositoryInfo.set_download_successful false (repo_info st))].
Proof.
  destruct (get_repository_info env repository) as [current | e] eqn:Hinfo.
  2: { rewrite (index_repository_raise _ _ _ _ _ _ _ e) by done. simpl. by intros ?%elem_of_nil. }
  rewrite (index_repository_unfold _ _ _ _ _ _ _ current) by done.
  destruct (check_existing _ _ _ _ _ _) as [e | st] eqn:Hplan.
  { simpl. by intros ?%elem_of_nil. }
  apply check_existing_continue in Hplan as (Hkey & Hrd & Htd & Hcs & _).
  destruct (need_download st) eqn:Hnd.
  - destruct (fetch_repository_contents env repository (mkdtemp env (scratch w)))
      as [[dl rd] | e] eqn:Hf.
    + destruct (run_stages_download_ok_events env repository (repositories w !! repository)
                  (if fr then true else fc) st w dl rd) as (r & rest & -> & Hrest); [done.. |].
      intros Hin. exfalso.
      apply elem_of_cons in Hin as [? | Hin]; [done |].
      apply elem_of_cons in Hin as [? | Hin]; [done |].
      apply elem_of_cons in Hin as [? | Hin]; [done |].
      by apply (proj1 (Forall_forall _ _) Hrest) in Hin.
    + intros _. exists current, st, e. split; [done |]. split; [done |].
      by rewrite (run_stages_download_raise _ _ _ _ _ _ e) by done.
  - rewrite run_stages_no_download by done. simpl. intros Hin. exfalso.
    pose proof (embed_stage_events env st w) as Hev.
    apply (proj1 (Forall_forall _ _) Hev) in Hin. by destruct Hin.
Qed.

(** ** Properties of [index_repository] *)

(** C4: when the persisted state of a repository has all three stage flags
    set and carries the commit hash that is observed now, a call without
    force flags does no download, chunk or embed work, writes nothing and
    returns the persisted state. *)
Theorem unchanged_reindex_is_noop env repository w e current :
  get_repository_info env repository = Ok current →
  repositories w !! repository = Some e →
  opt_str_truthy (RepositoryInfo.commit_hash e) = true →
  RepositoryInfo.commit_hash e = RepositoryInfo.commit_hash current →
  RepositoryInfo.download_successful e = true →
  RepositoryInfo.chunking_successful e = true →
  RepositoryInfo.embedding_successful e = true →
  index_repository env repository false false false false w = mkOutcome (Ok e) w [].
Proof.
  intros Hinfo Hex Ht Hh Hd Hc He.
  rewrite (index_repository_unfold _ _ _ _ _ _ _ current) by done.
  rewrite Hex. unfold check_existing, same_commit.
  rewrite Ht, Hd, Hc, He, bool_decide_eq_true_2 by done. reflexivity.
Qed.

Lemma unchanged_reindex_is_noop_witness :
  let e := Samples.indexed "c2" Samples.new_hashes true true true in
  let w := Samples.world_with e [] in
  index_repository Samples.healthy "a/b" false false false false w = mkOutcome (Ok e) w [].
Proof.
  intros e w.
  apply (unchanged_reindex_is_noop Samples.healthy "a/b" w e Samples.observed);
    reflexivity.
Defined.

(** C7: if the download fails, the run is exactly: create the scratch
    directory, fail to fetch, persist a state with
    [download_successful = False], raise.  Nothing is chunked or embedded. *)
Theorem download_failure_is_fatal env repository fr fd fc fe w :
  let o := index_repository env repository fr fd fc fe w in
  EvFetch repository false ∈ events o →
  ∃ e d r,
    result o = Raise e
    ∧ events o = [EvMkdtemp d; EvFetch repository false; EvAddRepository r]
    ∧ RepositoryInfo.download_successful r = false
    ∧ repositories (world o) !! RepositoryInfo.full_name r = Some r.
Proof.
  intros o Hin. subst o.
  destruct (fetch_failed_inv _ _ _ _ _ _ _ Hin) as (current & st & e & _ & _ & ->).
  eexists e, _, _. simpl. repeat split. apply lookup_insert_eq.
Qed.

Lemma download_failure_is_fatal_witness :
  ∃ e d r,
    result (index_repository Samples.offline "a/b" false false false false
              Samples.empty_world) = Raise e
    ∧ events (index_repository Samples.offline "a/b" false false false false
                Samples.empty_world)
      = [EvMkdtemp d; EvFetch "a/b" false; EvAddRepository r]
    ∧ RepositoryInfo.download_successful r = false
    ∧ repositories (world (index_repository Samples.offline "a/b" false false false false
                             Samples.empty_world))
        !! RepositoryInfo.full_name r = Some r.
Proof.
  apply (download_failure_is_fatal Samples.offline "a/b" false false false false
           Samples.empty_world).
  vm_compute. apply list_elem_of_In. right. left. reflexivity.
Defined.

(** Chunks are stored only in a run whose download step ran and succeeded;
    a run without a download leaves the chunk store as it was and logs
    nothing but writes of the repository's record. *)
Lemma chunks_stored_only_after_download env repository fr fd fc fe w :
  let o := index_repository env repository fr fd fc fe w in
  (∀ cs ok, EvStoreChunks cs ok ∈ events o → EvFetch repository true ∈ events o)
  ∧ ((∀ ok, EvFetch repository ok ∉ events o) →
     chunk_store (world o) = chunk_store w
     ∧ Forall (λ ev, is_persist ev = true) (events o)).
Proof.
  intros o. subst o.
  destruct (get_repository_info env repository) as [current | e] eqn:Hinfo.
  2: { rewrite (index_repository_raise _ _ _ _ _ _ _ e) by done. simpl.
       split; [by intros ? ? ?%elem_of_nil | done]. }
  rewrite (index_repository_unfold _ _ _ _ _ _ _ current) by done.
  destruct (check_existing _ _ _ _ _ _) as [e | st] eqn:Hplan.
  { simpl. split; [by intros ? ? ?%elem_of_nil | done]. }
  apply check_existing_continue in Hplan as (Hkey & Hrd & Htd & Hcs & _).
  destruct (need_download st) eqn:Hnd.
  - destruct (fetch_repository_contents env repository (mkdtemp env (scratch w)))
      as [[dl rd] | e] eqn:Hf.
    + destruct (run_stages_download_ok_events env repository (repositories w !! repository)
                  (if fr then true else fc) st w dl rd) as (r & rest & -> & Hrest); [done.. |].
      split.
      * intros _ _ _. apply elem_of_cons. right. apply elem_of_cons. by left.
      * intros Hno. exfalso. apply (Hno true).
        apply elem_of_cons. right. apply elem_of_cons. by left.
    + rewrite (run_stages_download_raise _ _ _ _ _ _ e) by done. simpl. split.
      * intros cs ok Hin.
        apply elem_of_cons in Hin as [? | Hin]; [done |].
        apply elem_of_cons in Hin as [? | Hin]; [done |].
        apply elem_of_cons in Hin as [? | Hin]; [done |].
        by apply elem_of_nil in Hin.
      * intros Hno. exfalso. apply (Hno false).
        apply elem_of_cons. right. apply elem_of_cons. by left.
  - rewrite run_stages_no_download by done. simpl.
    destruct (embed_stage_shape env st w) as [? -> | ? ? ? ? -> | ? ? ? ? -> | ? ? ? ? ? ->];
      try done; simpl.
    + split; [by intros ? ? ?%elem_of_nil | done].
    + split.
      * intros cs ok Hin. apply elem_of_cons in Hin as [? | Hin]; [done |].
        by apply elem_of_nil in Hin.
      * intros _. split; [done |]. by repeat constructor.
Qed.

(** C10: every state a run persists carries the commit hash observed at the
    start of that run; in particular, after a failed download the state
    stored under the repository's name has the new commit hash and
    [download_successful = False]. *)
Theorem persisted_states_carry_observed_commit env repository fr fd fc fe w current :
  get_repository_info env repository = Ok current →
  let o := index_repository env repository fr fd fc fe w in
  (∀ r, r ∈ persisted (events o) →
        RepositoryInfo.commit_hash r = RepositoryInfo.commit_hash current)
  ∧ (EvFetch repository false ∈ events o →
     ∃ r, repositories (world o) !! RepositoryInfo.full_name current = Some r
          ∧ RepositoryInfo.commit_hash r = RepositoryInfo.commit_hash current
          ∧ RepositoryInfo.download_successful r = false).
Proof.
  intros Hinfo o. subst o. split.
  2: { intros Hin.
       destruct (fetch_failed_inv _ _ _ _ _ _ _ Hin) as (current' & st & e & Hc & [Hh Hn] & ->).
       assert (current' = current) as -> by congruence.
       eexists. simpl. rewrite <- Hn. split; [apply lookup_insert_eq |]. by split. }
  rewrite (index_repository_unfold _ _ _ _ _ _ _ current) by done.
  destruct (check_existing _ _ _ _ _ _) as [e | st] eqn:Hplan.
  { simpl. by intros ? ?%elem_of_nil. }
  apply check_existing_continue in Hplan as ([Hkey _] & Hrd & Htd & Hcs & _).
  destruct (need_download st) eqn:Hnd.
  - destruct (fetch_repository_contents env repository (mkdtemp env (scratch w)))
      as [[dl rd] | e] eqn:Hf.
    + rewrite (run_stages_download_ok _ _ _ _ _ _ dl rd) by done. cbv zeta.
      rewrite scope_files_repo_info. simpl repo_info.
      set (r1 := RepositoryInfo.set_file_hashes _ _).
      set (st1 := set_repo_info r1 _).
      set (w1 := mkWorld _ _ _).
      assert (RepositoryInfo.commit_hash r1 = RepositoryInfo.commit_hash current) as Hr1
        by done.
      set (oc := chunk_stage _ _ _ _ _ _).
      assert ((∀ r, r ∈ persisted (events oc) →
                    RepositoryInfo.commit_hash r = RepositoryInfo.commit_hash current)
              ∧ ∀ st3, result oc = Ok st3 →
                       RepositoryInfo.commit_hash (repo_info st3)
                       = RepositoryInfo.commit_hash current) as [Hpc Hrc].
      { destruct (chunk_stage_shape env repository (repositories w !! repository)
                    (if fr then true else fc) st1 w1) as [Ho | evs cs b r _ _ Hevs Ho _ _ Hres];
          fold oc in Ho; [| fold oc in Hres].
        - rewrite Ho. simpl. split; [by intros ? ?%elem_of_nil | by intros ? [= <-]].
        - rewrite Ho, persisted_app. split.
          + intros r' [Hin | Hin]%elem_of_app.
            * exfalso. clear -Hevs Hin. induction Hevs as [| ev evs Hev _ IH]; simpl in Hin.
              -- by apply elem_of_nil in Hin.
              -- destruct ev; simpl in *; try done; auto.
            * simpl in Hin. apply elem_of_cons in Hin as [-> | Hin]; [done |].
              by apply elem_of_nil in Hin.
          + intros st3 Hst3. destruct Hres as [Hres | (_ & e & _ & Hres)]; [| congruence].
            rewrite Hres in Hst3. by injection Hst3 as <-. }
      assert (∀ st3 w2,
                RepositoryInfo.commit_hash (repo_info st3) = RepositoryInfo.commit_hash current →
                (∀ r, r ∈ persisted (events (embed_stage env st3 w2)) →
                      RepositoryInfo.commit_hash r = RepositoryInfo.commit_hash current)
                ∧ ∀ st4, result (embed_stage env st3 w2) = Ok st4 →
                         RepositoryInfo.commit_hash (repo_info st4)
                         = RepositoryInfo.commit_hash current) as Hemb.
      { intros st3 w2 Hst3.
        destruct (embed_stage_shape env st3 w2) as [? -> | ? ? ? ? -> | ? ? ? ? -> | ? ? ? ? ? ->];
          simpl; (split; [| try (by intros ? [= <-]); done]).
        - by intros ? ?%elem_of_nil.
        - intros r' [-> | Hin]%elem_of_cons; [done |]. by apply elem_of_nil in Hin.
        - intros r' [-> | Hin]%elem_of_cons; [done |]. by apply elem_of_nil in Hin.
        - intros r' [-> | Hin]%elem_of_cons; [done |]. by apply elem_of_nil in Hin. }
      assert (∀ st4 w3, persisted (events (cleanup env st4 w3)) = []) as Hcl.
      { intros st4 w3.
        by destruct (cleanup_shape env st4 w3) as [? -> | ? ? -> | ? ? ->]. }
      assert (∀ r, r ∈ persisted [EvMkdtemp (mkdtemp env (scratch w));
                                  EvFetch repository true; EvAddRepository r1] →
                   RepositoryInfo.commit_hash r = RepositoryInfo.commit_hash current) as Hpre.
      { simpl. intros r' [-> | Hin]%elem_of_cons; [done |]. by apply elem_of_nil in Hin. }
      destruct (result oc) as [st3 | e] eqn:Hoc.
      * destruct (Hemb st3 (world oc) (Hrc _ eq_refl)) as [Hpe Hre].
        destruct (result (embed_stage env st3 (world oc))) as [st4 | e] eqn:Hoe;
          cbn [events]; intros r'; rewrite !persisted_app, ?Hcl, ?app_nil_r;
          intros [Hin | [Hin | Hin]%elem_of_app]%elem_of_app; auto.
      * cbn [events]. intros r'; rewrite !persisted_app.
        intros [Hin | Hin]%elem_of_app; auto.
    + rewrite (run_stages_download_raise _ _ _ _ _ _ e) by done. simpl.
      intros r' [-> | Hin]%elem_of_cons; [done |]. by apply elem_of_nil in Hin.
  - rewrite run_stages_no_download by done. simpl.
    destruct (embed_stage_shape env st w) as [? -> | ? ? ? ? -> | ? ? ? ? -> | ? ? ? ? ? ->];
      simpl.
    + by intros ? ?%elem_of_nil.
    + intros r' [-> | Hin]%elem_of_cons; [done |]. by apply elem_of_nil in Hin.
    + intros r' [-> | Hin]%elem_of_cons; [done |]. by apply elem_of_nil in Hin.
    + intros r' [-> | Hin]%elem_of_cons; [done |]. by apply elem_of_nil in Hin.
Qed.

Lemma persisted_states_carry_observed_commit_witness :
  let o := index_repository Samples.offline "a/b" false false false false
             (Samples.world_with
                (Samples.indexed "c1" Samples.old_hashes true true true) []) in
  (∀ r, r ∈ persisted (events o) →
        RepositoryInfo.commit_hash r = RepositoryInfo.commit_hash Samples.observed)
  ∧ (EvFetch "a/b" false ∈ events o →
     ∃ r, repositories (world o) !! RepositoryInfo.full_name Samples.observed = Some r
          ∧ RepositoryInfo.commit_hash r = RepositoryInfo.commit_hash Samples.observed
          ∧ RepositoryInfo.download_successful r = false).
Proof.
  apply (persisted_states_carry_observed_commit Samples.offline "a/b" false false false false
           _ Samples.observed).
  reflexivity.
Defined.

(** ** The change set *)

Lemma elem_of_foldl_collect (c : string * string → bool) (l : list (string * string))
    (acc : gset string) (p : string) :
  p ∈ foldl (λ acc kv, if c kv then acc ∪ {[kv.1]} else acc) acc l
  ↔ p ∈ acc ∨ ∃ kv, kv ∈ l ∧ c kv = true ∧ kv.1 = p.
Proof.
  revert acc. induction l as [| kv l IH]; intros acc; simpl.
  - split; [auto |]. intros [? | (kv & Hin & _)]; [done |]. by apply elem_of_nil in Hin.
  - rewrite IH. split.
    + intros [Hin | (kv' & Hin & Hc & Hp)].
      * destruct (c kv) eqn:Hc; [| auto].
        apply elem_of_union in Hin as [Hin | Hin]; [auto |].
        apply elem_of_singleton in Hin. right. exists kv. split; [apply elem_of_cons; auto |].
        done.
      * right. exists kv'. split; [apply elem_of_cons; auto | done].
    + intros [Hin | (kv' & Hin & Hc & Hp)].
      * left. destruct (c kv); [apply elem_of_union |]; auto.
      * apply elem_of_cons in Hin as [-> | Hin].
        -- left. rewrite Hc. apply elem_of_union. right. by apply elem_of_singleton.
        -- right. exists kv'. done.
Qed.

Lemma elem_of_changed_files (old new : gmap string string) (p : string) :
  p ∈ changed_files old new ↔ ∃ h, new !! p = Some h ∧ old !! p ≠ Some h.
Proof.
  unfold changed_files. rewrite elem_of_foldl_collect. split.
  - intros [Hin | ([q h] & Hin & Hc & <-)]; [by apply not_elem_of_empty in Hin |].
    apply elem_of_map_to_list in Hin. exists h. split; [done |]. simpl in *.
    intros Hold. rewrite Hold in Hc.
    rewrite (bool_decide_eq_true_2 (is_Some (Some h))) in Hc by eauto.
    by rewrite bool_decide_eq_true_2 in Hc.
  - intros (h & Hnew & Hold). right. exists (p, h). split; [by apply elem_of_map_to_list |].
    split; [| done]. simpl.
    destruct (old !! p) as [h' |] eqn:E.
    + apply orb_true_iff. right. apply negb_true_iff, bool_decide_eq_false_2. done.
    + apply orb_true_iff. left. apply negb_true_iff, bool_decide_eq_false_2.
      by intros [? ?].
Qed.

Lemma elem_of_deleted_files (old new : gmap string string) (p : string) :
  p ∈ deleted_files old new ↔ is_Some (old !! p) ∧ new !! p = None.
Proof.
  unfold deleted_files. rewrite elem_of_foldl_collect. split.
  - intros [Hin | ([q h] & Hin & Hc & <-)]; [by apply not_elem_of_empty in Hin |].
    apply elem_of_map_to_list in Hin. simpl in *. split; [eauto |].
    apply negb_true_iff, bool_decide_eq_false_1 in Hc.
    by apply eq_None_not_Some.
  - intros ([h Hold] & Hnew). right. exists (p, h). split; [by apply elem_of_map_to_list |].
    split; [| done]. simpl. apply negb_true_iff, bool_decide_eq_false_2.
    rewrite Hnew. by intros [? ?].
Qed.

Lemma changed_deleted_disjoint (old new : gmap string string) :
  changed_files old new ## deleted_files old new.
Proof.
  intros p (h & Hnew & _)%elem_of_changed_files (_ & Hnone)%elem_of_deleted_files.
  congruence.
Qed.

Lemma changed_files_empty_old (new : gmap string string) : changed_files ∅ new = dom new.
Proof.
  apply set_eq. intros p. rewrite elem_of_changed_files, elem_of_dom. split.
  - intros (h & Hh & _). eauto.
  - intros [h Hh]. exists h. split; [done |]. by rewrite lookup_empty.
Qed.

Lemma deleted_files_empty_old (new : gmap string string) : deleted_files ∅ new = ∅.
Proof.
  apply set_eq. intros p. rewrite elem_of_deleted_files, lookup_empty. split.
  - by intros [[? ?] _].
  - by intros ?%not_elem_of_empty.
Qed.

Lemma dict_truthy_false (m : gmap string string) : dict_truthy m = false ↔ m = ∅.
Proof.
  unfold dict_truthy. rewrite negb_false_iff. apply bool_decide_eq_true.
Qed.

Lemma set_truthy_false (s : gset string) : set_truthy s = false ↔ s = ∅.
Proof.
  unfold set_truthy. rewrite negb_false_iff. apply bool_decide_eq_true.
Qed.

Lemma set_truthy_true (s : gset string) : set_truthy s = true ↔ s ≠ ∅.
Proof.
  unfold set_truthy. rewrite negb_true_iff. apply bool_decide_eq_false.
Qed.

(** What lines 162-193 leave in [files_to_chunk] and [files_to_delete]. *)
Lemma scope_files_sets env existing dl fc st :
  files_to_chunk st = ∅ → files_to_delete st = ∅ →
  (dict_truthy (old_hashes_of existing) = false →
   ∃ rd, repo_dir st = Some rd
         ∧ list_to_set (get_text_files env rd) = dom (RepositoryInfo.file_hashes dl)) →
  files_to_chunk (scope_files env existing dl fc st)
    = changed_files (old_hashes_of existing) (RepositoryInfo.file_hashes dl)
  ∧ files_to_delete (scope_files env existing dl fc st)
    = deleted_files (old_hashes_of existing) (RepositoryInfo.file_hashes dl).
Proof.
  intros Hc Hd Hlist. unfold scope_files.
  destruct existing as [e |]; simpl in *.
  - destruct (dict_truthy (RepositoryInfo.file_hashes e)) eqn:Ht.
    + by destruct (_ && _).
    + destruct (Hlist eq_refl) as (rd & Hrd & Hfiles).
      apply dict_truthy_false in Ht. rewrite Hrd, Ht. simpl.
      by rewrite Hfiles, changed_files_empty_old, deleted_files_empty_old.
  - destruct (Hlist eq_refl) as (rd & Hrd & Hfiles). rewrite Hrd. simpl.
    by rewrite Hfiles, changed_files_empty_old, deleted_files_empty_old.
Qed.

(** C3: the sets computed after a download are a function of the old and
    the new hash mapping alone.  [files_to_chunk] holds exactly the paths that
    are in both mappings with different hashes or only in the new one,
    [files_to_delete] exactly the paths only in the old one; the two are
    disjoint; with no old hashes everything new is changed and nothing is
    deleted.  (With no old hashes the engine lists the text files of the
    downloaded tree instead of comparing; the hypothesis is the fetcher's
    contract that these are the keys of the new mapping.) *)
Theorem change_set_correct env existing dl fc st :
  files_to_chunk st = ∅ → files_to_delete st = ∅ →
  (dict_truthy (old_hashes_of existing) = false →
   ∃ rd, repo_dir st = Some rd
         ∧ list_to_set (get_text_files env rd) = dom (RepositoryInfo.file_hashes dl)) →
  let old_hashes := old_hashes_of existing in
  let new_hashes := RepositoryInfo.file_hashes dl in
  let changed := files_to_chunk (scope_files env existing dl fc st) in
  let deleted := files_to_delete (scope_files env existing dl fc st) in
  (changed = changed_files old_hashes new_hashes
   ∧ deleted = deleted_files old_hashes new_hashes)
  ∧ (∀ p, p ∈ changed ↔
          (∃ h h', old_hashes !! p = Some h ∧ new_hashes !! p = Some h' ∧ h ≠ h')
          ∨ (old_hashes !! p = None ∧ is_Some (new_hashes !! p)))
  ∧ (∀ p, p ∈ deleted ↔ is_Some (old_hashes !! p) ∧ new_hashes !! p = None)
  ∧ changed ## deleted
  ∧ (old_hashes = ∅ → changed = dom new_hashes ∧ deleted = ∅).
Proof.
  intros Hc Hd Hlist old_hashes new_hashes changed deleted.
  destruct (scope_files_sets env existing dl fc st Hc Hd Hlist) as [Hch Hde].
  fold changed in Hch. fold deleted in Hde. fold old_hashes new_hashes in Hch, Hde.
  rewrite Hch, Hde. split; [done |]. split; [| split; [| split]].
  - intros p. rewrite elem_of_changed_files. split.
    + intros (h' & Hnew & Hold). destruct (old_hashes !! p) as [h |] eqn:E.
      * left. exists h, h'. repeat split; congruence.
      * right. eauto.
    + intros [(h & h' & Hold & Hnew & Hne) | (Hold & [h' Hnew])];
        exists h'; split; congruence.
  - apply elem_of_deleted_files.
  - apply changed_deleted_disjoint.
  - intros ->. by rewrite changed_files_empty_old, deleted_files_empty_old.
Qed.

Lemma change_set_correct_witness :
  let st := mkLocals Samples.observed (Some "/tmp/reposearch_0") (Some "/tmp/reposearch_0")
              true true true ∅ ∅ [] in
  let dl := RepositoryInfo.set_file_hashes Samples.new_hashes Samples.observed in
  files_to_chunk (scope_files Samples.healthy None dl false st) = dom Samples.new_hashes
  ∧ files_to_delete (scope_files Samples.healthy None dl false st) = ∅.
Proof.
  intros st dl.
  destruct (change_set_correct Samples.healthy None dl false st) as (_ & _ & _ & _ & H).
  - reflexivity.
  - reflexivity.
  - intros _. exists "/tmp/reposearch_0". split; [reflexivity | vm_compute; reflexivity].
  - apply H. reflexivity.
Defined.

Example change_set_of_example :
  changed_files Samples.old_hashes Samples.new_hashes = {["x.py"]}
  ∧ deleted_files Samples.old_hashes Samples.new_hashes = {["y.md"]}.
Proof. split; vm_compute; reflexivity. Qed.

(** ** Resuming with an unchanged commit hash *)

(** With the commit hash unchanged and no force flags, a run that only needs
    the embed step persists the freshly observed info with the embedding flag
    set: the download and chunking flags of the persisted state are those of
    the fresh object, not those of the prior state. *)
Lemma resume_embed_only env repository w e current :
  get_repository_info env repository = Ok current →
  repositories w !! repository = Some e →
  opt_str_truthy (RepositoryInfo.commit_hash e) = true →
  RepositoryInfo.commit_hash e = RepositoryInfo.commit_hash current →
  RepositoryInfo.download_successful e = true →
  RepositoryInfo.chunking_successful e = true →
  RepositoryInfo.embedding_successful e = false →
  let r := RepositoryInfo.set_last_indexed (Some (now env))
             (RepositoryInfo.set_embedding_successful true current) in
  index_repository env repository false false false false w =
  mkOutcome (Ok r)
    (mkWorld (<[RepositoryInfo.full_name r := r]> (repositories w)) (chunk_store w) (scratch w))
    [EvAddRepository r].
Proof.
  intros Hinfo Hex Ht Hh Hd Hc He.
  rewrite (index_repository_unfold _ _ _ _ _ _ _ current) by done.
  rewrite Hex. unfold check_existing, same_commit.
  rewrite Ht, Hd, Hc, He, bool_decide_eq_true_2 by done. simpl.
  rewrite run_stages_no_download by done.
  by rewrite embed_stage_no_chunks.
Qed.

(** With the commit hash unchanged, the download done and the chunking not,
    a run without force flags does nothing at all: the chunk step needs the
    directory that only a download provides, and the embed step waits for
    chunks. *)
Lemma resume_chunk_only env repository w e current :
  get_repository_info env repository = Ok current →
  repositories w !! repository = Some e →
  opt_str_truthy (RepositoryInfo.commit_hash e) = true →
  RepositoryInfo.commit_hash e = RepositoryInfo.commit_hash current →
  RepositoryInfo.download_successful e = true →
  RepositoryInfo.chunking_successful e = false →
  index_repository env repository false false false false w = mkOutcome (Ok current) w [].
Proof.
  intros Hinfo Hex Ht Hh Hd Hc.
  rewrite (index_repository_unfold _ _ _ _ _ _ _ current) by done.
  rewrite Hex. unfold check_existing, same_commit.
  rewrite Ht, Hd, Hc, bool_decide_eq_true_2 by done. simpl.
  rewrite run_stages_no_download by done.
  by rewrite embed_stage_skip.
Qed.

(** C1: the stage-dependency invariant fails for the state persisted by a
    run that resumes at the embed step.  The prior state of a/b has
    [download_successful = chunking_successful = True] and
    [embedding_successful = False] at the observed commit; the run persists
    one state, with the embedding flag set and the other two cleared. *)
Theorem resume_embed_breaks_stage_invariant :
  let e := Samples.indexed "c2" Samples.new_hashes true true false in
  let o := index_repository Samples.healthy "a/b" false false false false
             (Samples.world_with e []) in
  ∃ r, result o = Ok r
       ∧ persisted (events o) = [r]
       ∧ repositories (world o) !! "a/b" = Some r
       ∧ RepositoryInfo.download_successful r = false
       ∧ RepositoryInfo.chunking_successful r = false
       ∧ RepositoryInfo.embedding_successful r = true
       ∧ ¬ stage_invariant r.
Proof.
  intros e o. subst o.
  rewrite (resume_embed_only Samples.healthy "a/b" _ e Samples.observed) by reflexivity.
  eexists. simpl. split; [reflexivity |]. split; [reflexivity |].
  split; [reflexivity |]. repeat split. intros [_ H]. by specialize (H eq_refl).
Qed.

(** Whatever flags the fetcher gives a fresh [RepositoryInfo], some run
    persists a state that breaks the stage-dependency invariant: a failed
    download if the fresh object claims chunking succeeded, a resumed embed
    step otherwise. *)
Lemma stage_invariant_broken_for_any_defaults (current : Info) (env : Collaborators)
    (repository : string) :
  get_repository_info env repository = Ok current →
  opt_str_truthy (RepositoryInfo.commit_hash current) = true →
  (∀ d, fetch_repository_contents env repository d = Raise (OtherError "offline")) →
  ∃ w r,
    r ∈ persisted (events (index_repository env repository false false false false w))
    ∧ ¬ stage_invariant r.
Proof.
  intros Hinfo Ht Hfetch.
  destruct (RepositoryInfo.chunking_successful current) eqn:Hc.
  - exists (mkWorld ∅ [] ∅), (RepositoryInfo.set_download_successful false current).
    rewrite (index_repository_unfold _ _ _ _ _ _ _ current) by done.
    cbn [repositories]. rewrite lookup_empty. cbn [check_existing].
    rewrite (run_stages_download_raise _ _ _ _ _ _ (OtherError "offline")) by done.
    simpl. split; [apply elem_of_cons; by left |].
    intros [H _]. simpl in H. by specialize (H Hc).
  - set (e := RepositoryInfo.set_embedding_successful false
                (RepositoryInfo.set_chunking_successful true
                   (RepositoryInfo.set_download_successful true current))).
    exists (mkWorld {[repository := e]} [] ∅).
    eexists. rewrite (resume_embed_only env repository _ e current);
      [| done | apply lookup_singleton_eq | done..].
    simpl. split; [apply elem_of_cons; by left |].
    intros [_ H]. simpl in H. specialize (H eq_refl). congruence.
Qed.

(** C9: a run without a download changes more than the state flags.  The
    prior state of a/b has [download_successful = chunking_successful = True]
    and [embedding_successful = False] at the observed commit, with the file
    hashes of x.py, y.md and z.md and both counters at 3.  The run does not
    download, chunk or store anything and leaves the chunk store as it is,
    but its one write replaces the record by the freshly observed info: the
    file hashes are gone and [num_files] and [num_chunks] are 0. *)
Theorem embed_only_run_rewrites_record :
  let e := Samples.indexed "c2" Samples.old_hashes true true false in
  let w := Samples.world_with e
             [Samples.chunk_for "a/b" "x.py"; Samples.chunk_for "a/b" "y.md";
              Samples.chunk_for "a/b" "z.md"] in
  let o := index_repository Samples.healthy "a/b" false false false false w in
  ∃ r, result o = Ok r
       ∧ events o = [EvAddRepository r]
       ∧ chunk_store (world o) = chunk_store w
       ∧ repositories w !! "a/b" = Some e
       ∧ repositories (world o) !! "a/b" = Some r
       ∧ RepositoryInfo.file_hashes e = Samples.old_hashes
       ∧ RepositoryInfo.file_hashes r = ∅
       ∧ RepositoryInfo.num_files e = 3 ∧ RepositoryInfo.num_files r = 0
       ∧ RepositoryInfo.num_chunks e = 3 ∧ RepositoryInfo.num_chunks r = 0.
Proof.
  intros e w o. subst o.
  rewrite (resume_embed_only Samples.healthy "a/b" w e Samples.observed) by reflexivity.
  eexists. cbn [result events world chunk_store repositories].
  split; [reflexivity |]. split; [reflexivity |]. split; [reflexivity |].
  split; [reflexivity |]. split; [reflexivity |]. repeat split.
Qed.

(** C2: with the commit hash unchanged, [download_successful = True] and
    [chunking_successful = False] persisted for a/b, a run without force
    flags skips the download and then runs neither the chunk step nor the
    embed step; it logs nothing, changes nothing, and returns the fresh
    info. *)
Theorem resume_chunk_never_chunks :
  let e := Samples.indexed "c2" Samples.new_hashes true false false in
  let w := Samples.world_with e [] in
  let o := index_repository Samples.healthy "a/b" false false false false w in
  o = mkOutcome (Ok Samples.observed) w []
  ∧ Forall (λ ev, is_chunking ev = false) (events o)
  ∧ repositories (world o) !! "a/b" = Some e.
Proof.
  intros e w o. subst o.
  rewrite (resume_chunk_only Samples.healthy "a/b" w e Samples.observed) by reflexivity.
  split; [reflexivity |]. split; [constructor | reflexivity].
Qed.

(** ** Failures in the steps *)

(** C6: a decode failure on one file ends the chunk loop.  On a first index
    of a/b, whose text files are x.py and z.md, z.md is visited first and
    cannot be decoded: x.py is never chunked, the state persisted by the chunk
    step has [chunking_successful = False], nothing is stored, and the call
    returns normally. *)
Theorem decode_error_aborts_chunk_loop :
  let o := index_repository Samples.undecodable "a/b" false false false false
             Samples.empty_world in
  let r := RepositoryInfo.set_chunking_successful false Samples.downloaded in
  result o = Ok r
  ∧ events o = [EvMkdtemp "/tmp/reposearch_0"; EvFetch "a/b" true;
                EvAddRepository Samples.downloaded;
                EvDeleteFileChunks "a/b" "z.md"; EvChunkFile "z.md" false;
                EvAddRepository r;
                EvRmtree "/tmp/reposearch_0" true]
  ∧ repositories (world o) !! "a/b" = Some r
  ∧ RepositoryInfo.chunking_successful r = false
  ∧ chunk_store (world o) = [].
Proof. vm_compute. repeat split; reflexivity. Qed.

(** C8: the scratch directory stays on disk when a step raises.  Whether
    the download, the chunker or the embedder fails, the run ends with the
    exception, the directory is still there and [rmtree] was never called. *)
Theorem scratch_directory_left_on_exception :
  let run env := index_repository env "a/b" false false false false Samples.empty_world in
  let never_removed evs := Forall (λ ev, ∀ d ok, ev ≠ EvRmtree d ok) evs in
  (result (run Samples.offline) = Raise (OtherError "connection reset")
   ∧ scratch (world (run Samples.offline)) = {["/tmp/reposearch_0"]}
   ∧ never_removed (events (run Samples.offline)))
  ∧ (result (run Samples.crashing_chunker) = Raise (OtherError "out of memory")
     ∧ scratch (world (run Samples.crashing_chunker)) = {["/tmp/reposearch_0"]}
     ∧ never_removed (events (run Samples.crashing_chunker)))
  ∧ (result (run Samples.failing_embedder) = Raise (OtherError "rate limit")
     ∧ scratch (world (run Samples.failing_embedder)) = {["/tmp/reposearch_0"]}
     ∧ never_removed (events (run Samples.failing_embedder))).
Proof.
  intros run never_removed.
  assert (∀ o : Outcome Info,
            forallb (λ ev, match ev with EvRmtree _ _ => false | _ => true end) (events o) = true →
            never_removed (events o)) as Hnever.
  { intros o H. apply Forall_forall. intros ev Hin d ok ->.
    rewrite forallb_forall in H. apply list_elem_of_In, H in Hin. done. }
  repeat split; try (apply Hnever); vm_compute; reflexivity.
Qed.

(** The same for every run whose download fails: the directory made for it
    is still on disk when the exception leaves [index_repository]. *)
Lemma failed_download_leaves_scratch env repository fr fd fc fe w :
  let o := index_repository env repository fr fd fc fe w in
  EvFetch repository false ∈ events o →
  mkdtemp env (scratch w) ∈ scratch (world o)
  ∧ Forall (λ ev, ∀ d ok, ev ≠ EvRmtree d ok) (events o).
Proof.
  intros o Hin. subst o.
  destruct (fetch_failed_inv _ _ _ _ _ _ _ Hin) as (current & st & e & _ & _ & ->).
  simpl. split; [set_solver |].
  repeat (apply Forall_cons; split; [done |]). constructor.
Qed.

(** On the normal path the directory is removed. *)
Example scratch_directory_removed_on_success :
  let o := index_repository Samples.healthy "a/b" false false false false
             Samples.empty_world in
  scratch (world o) = ∅ ∧ EvRmtree "/tmp/reposearch_0" true ∈ events o.
Proof.
  split; [vm_compute; reflexivity |].
  vm_compute. apply list_elem_of_In. repeat first [by left | right].
Qed.

(** ** The chunk step in detail *)

Lemma chunk_changed_files_result env repository rd files acc w :
  result (chunk_changed_files env repository rd files acc w)
  = Ok (changed_files_chunks env repository rd files acc).
Proof.
  revert acc w. induction files as [| p files IH]; intros acc w; simpl; [done |].
  destruct (path_is_file env rd p); [| apply IH].
  rewrite bind_unfold. simpl.
  destruct (is_text_file env rd p); [| apply IH].
  rewrite bind_unfold. unfold do_chunk_file.
  destruct (chunk_file env rd p repository); simpl; [apply IH | done].
Qed.

(** The loop only removes chunks from the store, and chunks only files of
    its list. *)
Lemma chunk_changed_files_store env repository rd files acc w c :
  c ∈ chunk_store (world (chunk_changed_files env repository rd files acc w)) →
  c ∈ chunk_store w.
Proof.
  revert acc w. induction files as [| p files IH]; intros acc w; simpl; [done |].
  assert (∀ acc', c ∈ chunk_store (world (chunk_changed_files env repository rd files acc'
            (world (delete_file_chunks repository p w)))) → c ∈ chunk_store w) as Hdel.
  { intros acc' Hin%IH. simpl in Hin. apply list_elem_of_In, filter_In in Hin as [Hin _].
    by apply list_elem_of_In. }
  destruct (path_is_file env rd p); [| apply IH].
  rewrite bind_unfold. cbn [result delete_file_chunks].
  destruct (is_text_file env rd p); cbn [world]; [| apply Hdel].
  rewrite bind_unfold. unfold do_chunk_file.
  destruct (chunk_file env rd p repository); cbn [result world]; [apply Hdel |].
  simpl. intros Hin. apply list_elem_of_In, filter_In in Hin as [Hin _].
  by apply list_elem_of_In.
Qed.

Lemma chunk_changed_files_events env repository rd files acc w :
  Forall (diff_event repository files)
    (events (chunk_changed_files env repository rd files acc w)).
Proof.
  revert acc w. induction files as [| p files IH]; intros acc w; simpl; [constructor |].
  assert (∀ acc' w', Forall (diff_event repository (p :: files))
            (events (chunk_changed_files env repository rd files acc' w'))) as IH'.
  { intros acc' w'. eapply Forall_impl; [apply IH |].
    intros ev [? | (q & ok & -> & Hq)]; [by left | right].
    exists q, ok. split; [done | by apply elem_of_cons; right]. }
  destruct (path_is_file env rd p); [| apply IH'].
  apply Forall_events_bind;
    [apply Forall_cons; split; [left; eauto | constructor] |]. intros _ w'.
  destruct (is_text_file env rd p); [| apply IH'].
  apply Forall_events_bind.
  - unfold do_chunk_file. destruct (chunk_file env rd p repository); simpl;
      (apply Forall_cons; split; [| constructor]); right; eexists p, _;
      (split; [done |]); apply elem_of_cons; by left.
  - intros [cs | e] w''; [apply IH' | constructor].
Qed.

(** Deleting the chunks of each file of a list. *)
Lemma for_each_delete_store repository (l : list string) w c :
  c ∈ chunk_store (world (for_each l (delete_file_chunks repository) w))
  ↔ c ∈ chunk_store w ∧ ∀ p, p ∈ l → chunk_of_file repository p c = false.
Proof.
  revert w. induction l as [| q l IH]; intros w; cbn [for_each].
  - simpl. split; [intros ?; split; [done |]; by intros ? ?%elem_of_nil | by intros [? _]].
  - rewrite bind_unfold. cbn [result world delete_file_chunks]. rewrite IH. simpl.
    rewrite list_elem_of_In, filter_In, <- list_elem_of_In, negb_true_iff. split.
    + intros [[Hin Hq] Hl]. split; [done |].
      intros p [-> | Hp]%elem_of_cons; auto.
    + intros [Hin Hl]. split; [split; [done |] |].
      * apply Hl, elem_of_cons. by left.
      * intros p Hp. apply Hl, elem_of_cons. by right.
Qed.

Lemma for_each_delete_events repository (l : list string) w :
  Forall (λ ev, ∃ p, ev = EvDeleteFileChunks repository p)
    (events (for_each l (delete_file_chunks repository) w)).
Proof.
  revert w. induction l as [| q l IH]; intros w; cbn [for_each]; [constructor |].
  apply Forall_events_bind;
    [apply Forall_cons; split; [eauto | constructor] | intros _ w'; apply IH].
Qed.

Lemma no_chunks_of_app repository deleted (s1 s2 : list Chunk) :
  no_chunks_of repository deleted s1 → no_chunks_of repository deleted s2 →
  no_chunks_of repository deleted (s1 ++ s2).
Proof. intros H1 H2 c p [Hin | Hin]%elem_of_app; eauto. Qed.

(** The outcome of gathering chunks and then finishing the chunk step. *)
Lemma bind_finish_chunking (g : M (list Chunk * option exn)) (st : Locals) (w : World) out :
  result (g w) = Ok out →
  let r := RepositoryInfo.set_chunking_successful
             (match out.2 with None => true | Some _ => false end) (repo_info st) in
  bind g (λ out, finish_chunking out.1 out.2 st) w =
  mkOutcome
    (match out.2 with
     | Some e => if is_decode_error e then Ok (set_repo_info r (set_chunks out.1 st))
                 else Raise e
     | None => Ok (set_repo_info r (set_chunks out.1 st))
     end)
    (mkWorld (<[RepositoryInfo.full_name r := r]> (repositories (world (g w))))
       (chunk_store (world (g w))) (scratch (world (g w))))
    (events (g w) ++ [EvAddRepository r]).
Proof.
  intros Hout. rewrite bind_unfold, Hout. unfold finish_chunking.
  destruct out as [cs [e |]]; simpl; [| done]. by destruct (is_decode_error e).
Qed.

Lemma chunk_stage_gather env repository existing fc st w rd :
  repo_dir st = Some rd → need_chunking st = true →
  chunk_stage env repository existing fc st w =
  bind (gather env repository rd existing (set_truthy (files_to_chunk st) && negb fc)
          (files_to_chunk st) (files_to_delete st))
       (λ out, finish_chunking out.1 out.2 st) w.
Proof.
  intros Hrd Hnc. unfold chunk_stage, gather. rewrite Hrd, Hnc.
  destruct (set_truthy (files_to_chunk st) && negb fc); by rewrite bind_assoc.
Qed.

Lemma gather_result env repository rd existing diff to_chunk to_delete w :
  result (gather env repository rd existing diff to_chunk to_delete w)
  = Ok (produced_chunks env repository rd diff to_chunk).
Proof.
  unfold gather, produced_chunks. destruct diff; rewrite bind_unfold.
  - destruct (gathers_for_each (elements to_delete) (delete_file_chunks repository)
                (gathers_delete_file_chunks repository) w) as ([[] Hr] & _).
    destruct (set_truthy to_delete); [rewrite Hr |]; simpl;
      apply chunk_changed_files_result.
  - by destruct existing.
Qed.

Lemma gather_diff_events env repository rd existing to_chunk to_delete w :
  Forall (diff_event repository (elements to_chunk))
    (events (gather env repository rd existing true to_chunk to_delete w)).
Proof.
  unfold gather. apply Forall_events_bind.
  - destruct (set_truthy to_delete); [| constructor].
    eapply Forall_impl; [apply for_each_delete_events |]. intros ev [p ->]. left. eauto.
  - intros _ w'. apply chunk_changed_files_events.
Qed.

Lemma gather_diff_store env repository rd existing to_chunk to_delete w :
  no_chunks_of repository to_delete
    (chunk_store (world (gather env repository rd existing true to_chunk to_delete w))).
Proof.
  intros c p Hin Hrepo Hpath Hp. unfold gather in Hin. rewrite bind_unfold in Hin.
  destruct (set_truthy to_delete) eqn:Ht.
  - destruct (gathers_for_each (elements to_delete) (delete_file_chunks repository)
                (gathers_delete_file_chunks repository) w) as ([[] Hr] & _).
    rewrite Hr in Hin. cbn [world] in Hin.
    apply chunk_changed_files_store, for_each_delete_store in Hin as [_ Hin].
    specialize (Hin p (proj2 (elem_of_elements _ _) Hp)).
    unfold chunk_of_file in Hin. by rewrite !bool_decide_eq_true_2 in Hin.
  - apply set_truthy_false in Ht. subst. by apply not_elem_of_empty in Hp.
Qed.

Lemma gather_full_events env repository rd e to_chunk to_delete w :
  events (gather env repository rd (Some e) false to_chunk to_delete w)
  = [EvDeleteRepositoryChunks repository;
     EvChunkRepository (bool_decide ((chunk_repository env repository rd).2 = None))].
Proof. reflexivity. Qed.

Lemma gather_full_store env repository rd e to_chunk to_delete deleted w :
  no_chunks_of repository deleted
    (chunk_store (world (gather env repository rd (Some e) false to_chunk to_delete w))).
Proof.
  intros c p Hin Hrepo _ _. simpl in Hin.
  apply list_elem_of_In, filter_In in Hin as [_ Hin].
  apply negb_true_iff, bool_decide_eq_false in Hin. done.
Qed.

(** What a download after a prior state leaves in the locals: the scope and
    the files known to be deleted. *)
Lemma scope_files_scope env e dl fc st rd :
  need_chunking st = true → repo_dir st = Some rd → files_to_delete st = ∅ →
  scope_files env (Some e) dl fc st =
  set_files_to_delete (deleted_files (RepositoryInfo.file_hashes e) (RepositoryInfo.file_hashes dl))
    (set_files_to_chunk (chunk_scope env rd e dl) st).
Proof.
  intros Hnc Hrd Hdel. unfold scope_files, chunk_scope.
  destruct (dict_truthy (RepositoryInfo.file_hashes e)) eqn:Hd.
  - destruct (_ && _); [| done].
    destruct st; simpl in *. by subst.
  - apply dict_truthy_false in Hd. rewrite Hd, deleted_files_empty_old.
    destruct st; simpl in *. by subst.
Qed.

(** ** Re-indexing after the commit hash changed *)

(** The run, in full, when the commit hash changed: a download, the
    gathering of chunks (file by file exactly when the scope is not empty),
    one write of the chunking flag, then the embed step and the cleanup. *)
Lemma changed_commit_run env repository w e current dl rd :
  get_repository_info env repository = Ok current →
  repositories w !! repository = Some e →
  RepositoryInfo.commit_hash e ≠ RepositoryInfo.commit_hash current →
  fetch_repository_contents env repository (mkdtemp env (scratch w)) = Ok (dl, Some rd) →
  let o := index_repository env repository false false false false w in
  let scope := chunk_scope env rd e dl in
  let deleted := deleted_files (RepositoryInfo.file_hashes e) (RepositoryInfo.file_hashes dl) in
  let diff := set_truthy scope in
  let out := produced_chunks env repository rd diff scope in
  ∃ (w1 : World) (r1 r2 : Info) (tail : list Event),
    let g := gather env repository rd (Some e) diff scope deleted w1 in
    chunk_store w1 = chunk_store w
    ∧ events o = [EvMkdtemp (mkdtemp env (scratch w)); EvFetch repository true;
                EvAddRepository r1] ++ events g ++ [EvAddRepository r2] ++ tail
    ∧ ((∃ ex, out.2 = Some ex ∧ is_decode_error ex = false
              ∧ tail = [] ∧ result o = Raise ex)
       ∨ ((∀ ex, out.2 = Some ex → is_decode_error ex = true)
          ∧ ((out.1 = [] ∧ chunk_store (world o) = chunk_store (world g)
              ∧ Forall (λ ev, ∃ d ok, ev = EvRmtree d ok) tail)
             ∨ (out.1 ≠ [] ∧ ∃ ok r3 tail',
                  tail = [EvStoreChunks out.1 ok; EvAddRepository r3] ++ tail'
                  ∧ Forall (λ ev, ∃ d ok, ev = EvRmtree d ok) tail'
                  ∧ (chunk_store (world o) = chunk_store (world g) ++ out.1
                     ∨ ∃ ex, result o = Raise ex))))).
Proof.
  intros Hinfo Hex Hne Hfetch o scope deleted diff out. subst o.
  rewrite (index_repository_unfold _ _ _ _ _ _ _ current) by done.
  rewrite Hex. unfold check_existing, same_commit.
  rewrite (bool_decide_eq_false_2 _ Hne), andb_false_r. simpl.
  rewrite (run_stages_download_ok _ _ _ _ _ _ dl (Some rd)) by done. cbv zeta.
  rewrite (scope_files_scope _ _ _ _ _ rd) by done.
  fold scope deleted.
  match goal with
  | |- context [chunk_stage _ _ _ _ ?st ?wx] => set (stc := st); set (w1 := wx)
  end.
  exists w1, (repo_info stc).
  rewrite (chunk_stage_gather _ _ _ _ _ _ rd) by done.
  change (files_to_chunk stc) with scope. change (files_to_delete stc) with deleted.
  rewrite andb_true_r. fold diff.
  rewrite (bind_finish_chunking _ _ _ out) by apply gather_result.
  cbn [result world events].
  set (g := gather env repository rd (Some e) diff scope deleted w1).
  set (r2 := RepositoryInfo.set_chunking_successful _ (repo_info stc)).
  exists r2.
  set (st3 := set_repo_info r2 (set_chunks out.1 stc)).
  set (w2 := mkWorld _ (chunk_store (world g)) _).
  assert (∀ st4 w3, chunk_store (world (cleanup env st4 w3)) = chunk_store w3) as Hclean.
  { intros st4 w3. by destruct (cleanup_shape env st4 w3) as [? -> | ? ? -> | ? ? ->]. }
  assert (∃ tail,
    events
      match result (embed_stage env st3 w2) with
      | Ok st4 =>
          mkOutcome (Ok (repo_info st4))
            (world (cleanup env st4 (world (embed_stage env st3 w2))))
            ([EvMkdtemp (mkdtemp env (scratch w)); EvFetch repository true;
              EvAddRepository (repo_info stc)]
             ++ (events g ++ [EvAddRepository r2])
             ++ events (embed_stage env st3 w2)
             ++ events (cleanup env st4 (world (embed_stage env st3 w2))))
      | Raise ex =>
          mkOutcome (Raise ex) (world (embed_stage env st3 w2))
            ([EvMkdtemp (mkdtemp env (scratch w)); EvFetch repository true;
              EvAddRepository (repo_info stc)]
             ++ (events g ++ [EvAddRepository r2]) ++ events (embed_stage env st3 w2))
      end
    = [EvMkdtemp (mkdtemp env (scratch w)); EvFetch repository true;
       EvAddRepository (repo_info stc)] ++ events g ++ [EvAddRepository r2] ++ tail
    ∧ ((out.1 = []
        ∧ chunk_store (world
            match result (embed_stage env st3 w2) with
            | Ok st4 =>
                mkOutcome (Ok (repo_info st4))
                  (world (cleanup env st4 (world (embed_stage env st3 w2)))) []
            | Raise ex => mkOutcome (Raise ex) (world (embed_stage env st3 w2)) []
            end) = chunk_store (world g)
        ∧ Forall (λ ev, ∃ d ok, ev = EvRmtree d ok) tail)
       ∨ (out.1 ≠ [] ∧ ∃ ok r3 tail',
            tail = [EvStoreChunks out.1 ok; EvAddRepository r3] ++ tail'
            ∧ Forall (λ ev, ∃ d ok, ev = EvRmtree d ok) tail'
            ∧ (chunk_store (world
                 match result (embed_stage env st3 w2) with
                 | Ok st4 =>
                     mkOutcome (Ok (repo_info st4))
                       (world (cleanup env st4 (world (embed_stage env st3 w2)))) []
                 | Raise ex => mkOutcome (Raise ex) (world (embed_stage env st3 w2)) []
                 end) = chunk_store (world g) ++ out.1
               ∨ ∃ ex, result (embed_stage env st3 w2) = Raise ex)))) as Hembed.
  { destruct (embed_stage_shape env st3 w2)
      as [Hc -> | r Hne' Hnc _ _ | r Hne' Hcs Hst -> | ex r Hne' Hcs Hst ->].
    - simpl in Hc. cbn [result world events].
      exists (events (cleanup env st3 w2)). rewrite <- !app_assoc. split; [done |].
      left. destruct out.1; [| done]. split; [done |]. split; [by rewrite Hclean |].
      apply cleanup_events.
    - done.
    - cbn [result world events]. simpl in Hcs.
      eexists. rewrite <- !app_assoc. split; [reflexivity |].
      right. split; [done |]. eexists true, _, _. split; [reflexivity |].
      split; [apply cleanup_events |]. left. by rewrite Hclean.
    - cbn [result world events]. simpl in Hcs.
      eexists. rewrite <- !app_assoc. split; [reflexivity |].
      right. split; [done |]. eexists false, _, []. split; [reflexivity |].
      split; [constructor |]. right. eauto. }
  revert Hembed.
  assert (∀ ex : exn, is_decode_error ex = true ∨ is_decode_error ex = false) as Hdec.
  { intros ex. destruct (is_decode_error ex); auto. }
  destruct out.2 as [ex |] eqn:Herr; [destruct (Hdec ex) as [Hde | Hde]; rewrite Hde |].
  - destruct (result (embed_stage env st3 w2)) as [st4 | ex'] eqn:Hres;
      cbn [events world result]; intros (tail & Hev & Hcases); exists tail;
      (split; [done |]); (split; [exact Hev |]); right; (split; [by intros ? [= <-] |]).
    + destruct Hcases as [? | (? & ok & r3 & tail' & ? & ? & [? | [? ?]])]; [by left | | done].
      right. split; [done |]. exists ok, r3, tail'. auto.
    + destruct Hcases as [? | (? & ok & r3 & tail' & ? & ? & _)]; [by left |].
      right. split; [done |]. exists ok, r3, tail'. eauto.
  - intros _. exists []. cbn [events result]. split; [done |]. split; [done |].
    left. exists ex. done.
  - destruct (result (embed_stage env st3 w2)) as [st4 | ex'] eqn:Hres;
      cbn [events world result]; intros (tail & Hev & Hcases); exists tail;
      (split; [done |]); (split; [exact Hev |]); right; (split; [done |]).
    + destruct Hcases as [? | (? & ok & r3 & tail' & ? & ? & [? | [? ?]])]; [by left | | done].
      right. split; [done |]. exists ok, r3, tail'. auto.
    + destruct Hcases as [? | (? & ok & r3 & tail' & ? & ? & _)]; [by left |].
      right. split; [done |]. exists ok, r3, tail'. eauto.
Qed.


(** Every chunk the loop gathers comes from [chunk_file] on a file of its
    list, and if no call raises the loop gathers them all. *)
Lemma changed_files_chunks_sound env repository rd files acc c :
  c ∈ (changed_files_chunks env repository rd files acc).1 →
  c ∈ acc ∨ ∃ p cs, p ∈ files
                    ∧ path_is_file env rd p = true ∧ is_text_file env rd p = true
                    ∧ chunk_file env rd p repository = Ok cs ∧ c ∈ cs.
Proof.
  revert acc. induction files as [| q files IH]; intros acc; simpl; [auto |].
  assert (∀ acc', c ∈ (changed_files_chunks env repository rd files acc').1 →
                  c ∈ acc' ∨ ∃ p cs, p ∈ q :: files
                    ∧ path_is_file env rd p = true ∧ is_text_file env rd p = true
                    ∧ chunk_file env rd p repository = Ok cs ∧ c ∈ cs) as IH'.
  { intros acc' [? | (p & cs & Hp & ?)]%IH; [by left | right].
    exists p, cs. split; [by apply elem_of_cons; right | done]. }
  destruct (path_is_file env rd q) eqn:Hf; [| apply IH'].
  destruct (is_text_file env rd q) eqn:Ht; [| apply IH'].
  destruct (chunk_file env rd q repository) as [cs | ex] eqn:Hq; simpl; [| auto].
  intros [[? | Hin]%elem_of_app | ?]%IH'; [by left | | by right].
  right. exists q, cs. split; [by apply elem_of_cons; left | done].
Qed.

Lemma changed_files_chunks_complete env repository rd files acc :
  (∀ p, p ∈ files → path_is_file env rd p = true → is_text_file env rd p = true →
        ∃ cs, chunk_file env rd p repository = Ok cs) →
  (changed_files_chunks env repository rd files acc).2 = None
  ∧ ∀ c, (c ∈ acc ∨ ∃ p cs, p ∈ files
                     ∧ path_is_file env rd p = true ∧ is_text_file env rd p = true
                     ∧ chunk_file env rd p repository = Ok cs ∧ c ∈ cs) →
         c ∈ (changed_files_chunks env repository rd files acc).1.
Proof.
  revert acc. induction files as [| q files IH]; intros acc Hok; simpl.
  - split; [done |]. intros c [? | (p & ? & ?%elem_of_nil & _)]; done.
  - assert (∀ p, p ∈ files → path_is_file env rd p = true → is_text_file env rd p = true →
                 ∃ cs, chunk_file env rd p repository = Ok cs) as Hok'.
    { intros p Hp. apply Hok, elem_of_cons. by right. }
    destruct (path_is_file env rd q) eqn:Hf.
    2: { destruct (IH acc Hok') as [Hnone Hall]. split; [done |].
         intros c [? | (p & cs & [-> | Hp]%elem_of_cons & Hpf & ?)];
           [apply Hall; by left | congruence | apply Hall; right; eauto 10]. }
    destruct (is_text_file env rd q) eqn:Ht.
    2: { destruct (IH acc Hok') as [Hnone Hall]. split; [done |].
         intros c [? | (p & cs & [-> | Hp]%elem_of_cons & Hpf & Hpt & ?)];
           [apply Hall; by left | congruence | apply Hall; right; eauto 10]. }
    destruct (Hok q) as [cs Hq]; [by apply elem_of_cons; left | done.. |].
    rewrite Hq. destruct (IH (acc ++ cs) Hok') as [Hnone Hall]. split; [done |].
    intros c [? | (p & cs' & [-> | Hp]%elem_of_cons & Hpf & Hpt & Hpc & ?)]; apply Hall.
    + left. apply elem_of_app. by left.
    + left. apply elem_of_app. right. congruence.
    + right. eauto 10.
Qed.

(** The loop deletes only chunks of the files of its list. *)
Lemma chunk_changed_files_keeps env repository rd files acc w c :
  c ∈ chunk_store w →
  (∀ p, p ∈ files → chunk_of_file repository p c = false) →
  c ∈ chunk_store (world (chunk_changed_files env repository rd files acc w)).
Proof.
  revert acc w. induction files as [| q files IH]; intros acc w Hc Hfiles; simpl; [done |].
  assert (∀ p, p ∈ files → chunk_of_file repository p c = false) as Hfiles'.
  { intros p Hp. apply Hfiles, elem_of_cons. by right. }
  destruct (path_is_file env rd q); [| by apply IH].
  rewrite bind_unfold. cbn [result world delete_file_chunks].
  set (w' := mkWorld _ _ _).
  assert (c ∈ chunk_store w') as Hc'.
  { simpl. apply list_elem_of_In, filter_In. split; [by apply list_elem_of_In |].
    apply negb_true_iff, Hfiles, elem_of_cons. by left. }
  destruct (is_text_file env rd q); [| by apply IH].
  rewrite bind_unfold. unfold do_chunk_file.
  destruct (chunk_file env rd q repository); cbn [result world]; [by apply IH | done].
Qed.

Lemma gather_diff_keeps env repository rd existing to_chunk to_delete w c :
  c ∈ chunk_store w →
  (∀ p, p ∈ to_chunk ∪ to_delete → chunk_of_file repository p c = false) →
  c ∈ chunk_store (world (gather env repository rd existing true to_chunk to_delete w)).
Proof.
  intros Hc Hp. unfold gather. rewrite bind_unfold.
  destruct (gathers_for_each (elements to_delete) (delete_file_chunks repository)
              (gathers_delete_file_chunks repository) w) as ([[] Hr] & _).
  assert (∀ p, p ∈ elements to_chunk → chunk_of_file repository p c = false) as Hchunk.
  { intros p Hin%elem_of_elements. apply Hp, elem_of_union. by left. }
  destruct (set_truthy to_delete); [rewrite Hr |]; cbn [result world ret];
    apply chunk_changed_files_keeps; try done.
  apply for_each_delete_store. split; [done |].
  intros p Hin%elem_of_elements. apply Hp, elem_of_union. by right.
Qed.

(** C5, as amended: when the commit hash observed now differs from the one
    persisted for a repository and the download succeeds, a run without force
    flags scopes the chunk step to the changed and added files if the
    persisted state recorded file hashes, and to all text files of the
    download if it recorded none.  If the scope is not empty the chunk step
    is diff-scoped: it chunks only files of the scope and never deletes or
    chunks the whole repository; if the scope is empty it deletes all chunks
    of the repository and chunks it whole.  The embed step stores a batch
    only if it is not empty, and every chunk of it was yielded by the chunker
    for the scope; if no chunker call raises, a batch is stored exactly when
    the chunker yields a chunk, and it holds all of them.  When the run
    returns, no chunk of the repository in the store refers to a file that
    the persisted hashes list and the download lacks; and, the scope not being
    empty, every chunk that was in the store and belongs neither to a file of
    the scope nor to such a deleted file is still there, so that with no
    hashes persisted the chunks of files that left the repository stay.  The
    two contracts are the chunker's: the chunks of a file refer to it, and
    the chunks of a repository refer to files of the downloaded snapshot. *)
Theorem changed_commit_reindex env repository w e current dl rd :
  get_repository_info env repository = Ok current →
  repositories w !! repository = Some e →
  RepositoryInfo.commit_hash e ≠ RepositoryInfo.commit_hash current →
  fetch_repository_contents env repository (mkdtemp env (scratch w)) = Ok (dl, Some rd) →
  (∀ p cs c, chunk_file env rd p repository = Ok cs → c ∈ cs →
             DocumentChunk.file_path c = Some p) →
  (∀ c p, c ∈ (chunk_repository env repository rd).1 →
          DocumentChunk.file_path c = Some p →
          is_Some (RepositoryInfo.file_hashes dl !! p)) →
  let o := index_repository env repository false false false false w in
  let scope := chunk_scope env rd e dl in
  let deleted := deleted_files (RepositoryInfo.file_hashes e) (RepositoryInfo.file_hashes dl) in
  EvFetch repository true ∈ events o
  ∧ (scope ≠ ∅ →
     (EvDeleteRepositoryChunks repository ∉ events o)
     ∧ (∀ ok, EvChunkRepository ok ∉ events o)
     ∧ (∀ p ok, EvChunkFile p ok ∈ events o → p ∈ scope))
  ∧ (scope = ∅ →
     EvDeleteRepositoryChunks repository ∈ events o
     ∧ (∃ ok, EvChunkRepository ok ∈ events o)
     ∧ (∀ p ok, EvChunkFile p ok ∉ events o))
  ∧ (∀ cs ok, EvStoreChunks cs ok ∈ events o →
              cs ≠ [] ∧ ∀ c, c ∈ cs → chunker_yields env repository rd scope c)
  ∧ (chunker_succeeds env repository rd scope →
     ((∃ cs ok, EvStoreChunks cs ok ∈ events o)
      ↔ ∃ c, chunker_yields env repository rd scope c)
     ∧ (∀ cs ok c, EvStoreChunks cs ok ∈ events o →
                   chunker_yields env repository rd scope c → c ∈ cs))
  ∧ (∀ r, result o = Ok r →
          no_chunks_of repository deleted (chunk_store (world o))
          ∧ (scope ≠ ∅ →
             ∀ c, c ∈ chunk_store w →
                  (∀ p, p ∈ scope ∪ deleted → chunk_of_file repository p c = false) →
                  c ∈ chunk_store (world o))).
Proof.
  intros Hinfo Hex Hne Hfetch Hfile Hrepo o scope deleted.
  destruct (changed_commit_run env repository w e current dl rd Hinfo Hex Hne Hfetch)
    as (w1 & r1 & r2 & tail & Hw1 & Hev & Htail).
  fold o scope deleted in Hev, Htail. cbv zeta in Hev, Htail.
  set (out := produced_chunks env repository rd (set_truthy scope) scope) in *.
  set (g := gather env repository rd (Some e) (set_truthy scope) scope deleted w1) in *.
  (* the events of the gathering, by scope *)
  assert (scope ≠ ∅ → Forall (diff_event repository (elements scope)) (events g)) as Hdiff.
  { intros Hc%set_truthy_true. subst g. rewrite Hc. apply gather_diff_events. }
  assert (scope = ∅ →
          events g = [EvDeleteRepositoryChunks repository;
                      EvChunkRepository
                        (bool_decide ((chunk_repository env repository rd).2 = None))])
    as Hfull.
  { intros Hc%set_truthy_false. subst g. by rewrite Hc. }
  (* what the chunk step gathered *)
  assert (∀ c, c ∈ out.1 → chunker_yields env repository rd scope c) as Hsound.
  { intros c Hin. subst out. unfold produced_chunks in Hin. unfold chunker_yields.
    destruct (set_truthy scope); [| done].
    apply changed_files_chunks_sound in Hin
      as [Hin | (p & cs & Hp%elem_of_elements & ?)]; [by apply elem_of_nil in Hin |].
    exists p, cs. done. }
  assert (chunker_succeeds env repository rd scope →
          out.2 = None ∧ ∀ c, chunker_yields env repository rd scope c → c ∈ out.1)
    as Hcomplete.
  { subst out. unfold produced_chunks, chunker_succeeds, chunker_yields.
    destruct (set_truthy scope); [| done]. intros Hok.
    destruct (changed_files_chunks_complete env repository rd (elements scope) []) as [Hn Hall].
    { intros p Hp%elem_of_elements. by apply Hok. }
    split; [done |]. intros c (p & cs & Hp & ?). apply Hall. right.
    exists p, cs. split; [by apply elem_of_elements | done]. }
  (* the tail holds only the store, one write and the cleanup *)
  assert (∀ ev, ev ∈ tail →
                (∃ ok, ev = EvStoreChunks out.1 ok ∧ out.1 ≠ [])
                ∨ is_persist ev = true ∨ ∃ d ok, ev = EvRmtree d ok) as Htl.
  { intros ev Hin.
    destruct Htail as [(ex & _ & _ & -> & _) | (Hde & [(_ & _ & Hrm) | (Hne' & ok & r3 & tail' & -> & Hrm & _)])].
    - by apply elem_of_nil in Hin.
    - right. right. by apply (proj1 (Forall_forall _ _) Hrm).
    - apply elem_of_app in Hin as [Hin | Hin].
      + apply elem_of_cons in Hin as [-> | Hin]; [left; eauto |].
        apply elem_of_cons in Hin as [-> | Hin]; [by right; left |].
        by apply elem_of_nil in Hin.
      + right. right. by apply (proj1 (Forall_forall _ _) Hrm). }
  assert (∀ ev, ev ∈ events o ↔
                ev = EvMkdtemp (mkdtemp env (scratch w)) ∨ ev = EvFetch repository true
                ∨ ev = EvAddRepository r1 ∨ ev ∈ events g ∨ ev = EvAddRepository r2
                ∨ ev ∈ tail) as Hmem.
  { intros ev. rewrite Hev, !elem_of_app, !elem_of_cons, elem_of_nil. tauto. }
  assert (∀ cs ok, EvStoreChunks cs ok ∈ events o → cs = out.1 ∧ out.1 ≠ []) as Hstore.
  { intros cs ok [? | [? | [? | [Hin | [? | Hin]]]]]%Hmem; try done.
    - exfalso. destruct (decide (scope = ∅)) as [Hc | Hc].
      + rewrite (Hfull Hc) in Hin.
        apply elem_of_cons in Hin as [? | Hin]; [done |].
        apply elem_of_cons in Hin as [? | Hin]; [done |].
        by apply elem_of_nil in Hin.
      + specialize (Hdiff Hc). rewrite Forall_forall in Hdiff.
        apply Hdiff in Hin as [[? ?] | (? & ? & ? & _)]; done.
    - apply Htl in Hin as [(? & [= <- _] & ?) | [? | (? & ? & ?)]]; done. }
  split; [apply Hmem; auto |]. split; [| split; [| split; [| split]]].
  - intros Hc. specialize (Hdiff Hc). rewrite Forall_forall in Hdiff. split; [| split].
    + intros [? | [? | [? | [Hin | [? | Hin]]]]]%Hmem; try done.
      * apply Hdiff in Hin as [[? ?] | (? & ? & ? & _)]; done.
      * apply Htl in Hin as [(? & ? & _) | [? | (? & ? & ?)]]; done.
    + intros ok [? | [? | [? | [Hin | [? | Hin]]]]]%Hmem; try done.
      * apply Hdiff in Hin as [[? ?] | (? & ? & ? & _)]; done.
      * apply Htl in Hin as [(? & ? & _) | [? | (? & ? & ?)]]; done.
    + intros p ok [? | [? | [? | [Hin | [? | Hin]]]]]%Hmem; try done.
      * apply Hdiff in Hin as [[? ?] | (q & ? & [= <- <-] & Hq)]; [done |].
        by apply elem_of_elements.
      * apply Htl in Hin as [(? & ? & _) | [? | (? & ? & ?)]]; done.
  - intros Hc. specialize (Hfull Hc). split; [| split].
    + apply Hmem. do 3 right. left. rewrite Hfull. apply elem_of_cons. by left.
    + eexists. apply Hmem. do 3 right. left. rewrite Hfull.
      apply elem_of_cons. right. apply elem_of_cons. by left.
    + intros p ok [? | [? | [? | [Hin | [? | Hin]]]]]%Hmem; try done.
      * rewrite Hfull in Hin.
        apply elem_of_cons in Hin as [? | Hin]; [done |].
        apply elem_of_cons in Hin as [? | Hin]; [done |].
        by apply elem_of_nil in Hin.
      * apply Htl in Hin as [(? & ? & _) | [? | (? & ? & ?)]]; done.
  - intros cs ok [-> Hne']%Hstore. split; [done | exact Hsound].
  - intros [Hnone Hall]%Hcomplete. split; [split |].
    + intros (cs & ok & [-> Hne']%Hstore).
      destruct out.1 as [| c l] eqn:Hout; [done |].
      exists c. apply Hsound. rewrite ?Hout. apply elem_of_cons. by left.
    + intros [c Hc%Hall].
      destruct Htail as [(ex & Hex' & _) | (_ & [(Hnil & _) | (_ & ok & r3 & tail' & -> & _)])].
      * congruence.
      * rewrite Hnil in Hc. by apply elem_of_nil in Hc.
      * exists out.1, ok. apply Hmem. do 5 right. apply elem_of_app. left.
        apply elem_of_cons. by left.
    + intros cs ok c [-> _]%Hstore. apply Hall.
  - intros r Hres.
    assert (chunk_store (world o) = chunk_store (world g)
            ∨ chunk_store (world o) = chunk_store (world g) ++ out.1) as Hworld.
    { destruct Htail as [(ex & _ & _ & _ & Hraise) | (_ & [(_ & -> & _) | (_ & ok & r3 & tail' & _ & _ & [-> | [ex Hraise]])])];
        try congruence; auto. }
    split.
    + assert (no_chunks_of repository deleted (chunk_store (world g))) as Hg.
      { subst g. destruct (set_truthy scope); [apply gather_diff_store | apply gather_full_store]. }
      assert (no_chunks_of repository deleted out.1) as Hout.
      { intros c p Hin%Hsound _ Hpath Hdel. unfold chunker_yields in Hin.
        destruct (set_truthy scope) eqn:Hsc.
        - destruct Hin as (q & cs & Hq & _ & _ & Hcs & Hin).
          rewrite (Hfile q cs c Hcs Hin) in Hpath. injection Hpath as ->.
          apply elem_of_deleted_files in Hdel as [[h Hold] Hnew].
          unfold scope, chunk_scope in Hq.
          destruct (dict_truthy (RepositoryInfo.file_hashes e)) eqn:Hd.
          + by apply (changed_deleted_disjoint _ _ p Hq), elem_of_deleted_files.
          + apply dict_truthy_false in Hd. rewrite Hd in Hold. by rewrite lookup_empty in Hold.
        - apply (Hrepo c p Hin) in Hpath as [h Hh].
          apply elem_of_deleted_files in Hdel as [_ Hnone]. congruence. }
      destruct Hworld as [-> | ->]; [done | by apply no_chunks_of_app].
    + intros Hsc c Hc Hp.
      assert (c ∈ chunk_store (world g)) as Hg.
      { subst g. rewrite (proj2 (set_truthy_true _) Hsc).
        apply gather_diff_keeps; [by rewrite Hw1 | done]. }
      destruct Hworld as [-> | ->]; [done |]. apply elem_of_app. by left.
Qed.

Lemma not_elem_of_events (f : Event → bool) (evs : list Event) (ev : Event) :
  forallb f evs = true → f ev = false → ev ∉ evs.
Proof.
  intros Hall Hev Hin. rewrite forallb_forall in Hall.
  apply list_elem_of_In, Hall in Hin. congruence.
Qed.

(** C5 as stated fails in each of its parts.  After the commit hash changed
    the chunk step is diff-scoped: the run completes, the chunker is never
    asked for the whole repository, x.py is chunked and the unchanged z.md is
    not.  With a prior state that is fully indexed but records no file
    hashes, the run goes file by file over the text files of the download and
    never deletes the chunks of the repository: the chunk of y.md, which is
    no longer in the repository, is still in the store when it returns.  And
    with a chunker that yields no chunk the embed step does not run: nothing
    is stored and the state returned has [embedding_successful = False]. *)
Lemma changed_commit_chunks_only_the_diff :
  ((∃ r, result ChangedCommit.run = Ok r)
   ∧ ¬ (∃ ok, EvChunkRepository ok ∈ events ChangedCommit.run)
   ∧ EvChunkFile "x.py" true ∈ events ChangedCommit.run
   ∧ ¬ (∃ ok, EvChunkFile "z.md" ok ∈ events ChangedCommit.run))
  ∧ ((∃ r, result ChangedCommit.run_without_hashes = Ok r)
     ∧ ¬ (∃ ok, EvChunkRepository ok ∈ events ChangedCommit.run_without_hashes)
     ∧ (EvDeleteRepositoryChunks "a/b" ∉ events ChangedCommit.run_without_hashes)
     ∧ Samples.chunk_for "a/b" "y.md"
         ∈ chunk_store (world ChangedCommit.run_without_hashes))
  ∧ ((∃ r, result ChangedCommit.run_without_chunks = Ok r
           ∧ RepositoryInfo.embedding_successful r = false)
     ∧ ¬ (∃ cs ok, EvStoreChunks cs ok ∈ events ChangedCommit.run_without_chunks)).
Proof.
  split; [| split].
  - split; [eexists; vm_compute; reflexivity |]. split; [| split].
    + intros [ok Hin]. revert Hin.
      apply (not_elem_of_events
               (λ ev, match ev with EvChunkRepository _ => false | _ => true end));
        [vm_compute |]; reflexivity.
    + vm_compute. apply list_elem_of_In. repeat first [by left | right].
    + intros [ok Hin]. revert Hin.
      apply (not_elem_of_events
               (λ ev, match ev with
                      | EvChunkFile p _ => negb (bool_decide (p = "z.md"))
                      | _ => true
                      end)); [vm_compute |]; reflexivity.
  - split; [eexists; vm_compute; reflexivity |]. split; [| split].
    + intros [ok Hin]. revert Hin.
      apply (not_elem_of_events
               (λ ev, match ev with EvChunkRepository _ => false | _ => true end));
        [vm_compute |]; reflexivity.
    + apply (not_elem_of_events
               (λ ev, match ev with EvDeleteRepositoryChunks _ => false | _ => true end));
        [vm_compute |]; reflexivity.
    + vm_compute. apply list_elem_of_In. repeat first [by left | right].
  - split.
    + eexists. split; vm_compute; reflexivity.
    + intros (cs & ok & Hin). revert Hin.
      apply (not_elem_of_events
               (λ ev, match ev with EvStoreChunks _ _ => false | _ => true end));
        [vm_compute |]; reflexivity.
Qed.

Lemma changed_commit_reindex_witness :
  ((∀ ok, EvChunkRepository ok ∉ events ChangedCommit.run)
   ∧ (∀ r, result ChangedCommit.run = Ok r →
           no_chunks_of "a/b" (deleted_files Samples.old_hashes Samples.new_hashes)
             (chunk_store (world ChangedCommit.run))))
  ∧ Samples.chunk_for "a/b" "y.md" ∈ chunk_store (world ChangedCommit.run_without_hashes).
Proof.
  assert (∀ p cs c, chunk_file Samples.healthy "/tmp/reposearch_0" p "a/b" = Ok cs → c ∈ cs →
                    DocumentChunk.file_path c = Some p) as Hfile.
  { simpl. intros p cs c [= <-] ->%list_elem_of_singleton. reflexivity. }
  assert (∀ c p, c ∈ (chunk_repository Samples.healthy "a/b" "/tmp/reposearch_0").1 →
                 DocumentChunk.file_path c = Some p →
                 is_Some (Samples.new_hashes !! p)) as Hrepo.
  { simpl. intros c p [-> | [-> | Hin]%elem_of_cons]%elem_of_cons Hp;
      [| | by apply elem_of_nil in Hin]; simpl in Hp; injection Hp as <-; by eexists. }
  split.
  - destruct (changed_commit_reindex Samples.healthy "a/b" ChangedCommit.before
                ChangedCommit.prior Samples.observed
                (RepositoryInfo.set_num_files 2
                   (RepositoryInfo.set_file_hashes Samples.new_hashes Samples.observed))
                "/tmp/reposearch_0")
      as (_ & Hdiff & _ & _ & _ & Hstore);
      [reflexivity | reflexivity | simpl; discriminate | reflexivity | exact Hfile
      | exact Hrepo |].
    split; [| intros r Hr; exact (proj1 (Hstore r Hr))].
    apply Hdiff. apply set_truthy_true. vm_compute. reflexivity.
  - destruct (changed_commit_reindex Samples.healthy "a/b" ChangedCommit.before_without_hashes
                ChangedCommit.prior_without_hashes Samples.observed
                (RepositoryInfo.set_num_files 2
                   (RepositoryInfo.set_file_hashes Samples.new_hashes Samples.observed))
                "/tmp/reposearch_0")
      as (_ & _ & _ & _ & _ & Hstore);
      [reflexivity | reflexivity | simpl; discriminate | reflexivity | exact Hfile
      | exact Hrepo |].
    assert (∃ r, result ChangedCommit.run_without_hashes = Ok r) as [r Hr]
      by (eexists; vm_compute; reflexivity).
    destruct (Hstore r Hr) as [_ Hstay]. apply Hstay.
    + apply set_truthy_true. vm_compute. reflexivity.
    + vm_compute. apply list_elem_of_In. right. left. reflexivity.
    + intros p Hp. unfold chunk_of_file. simpl.
      destruct (decide (p = "y.md")) as [-> | Hne].
      * pose proof (bool_decide_eq_true_2 _ Hp) as Hb. vm_compute in Hb. discriminate Hb.
      * rewrite (bool_decide_eq_false_2 (Some "y.md" = Some p)) by congruence.
        reflexivity.
Defined.

(** The chunk store of the example afterwards: the chunk of y.md is gone,
    that of z.md was kept, that of x.py was replaced. *)
Example changed_commit_store :
  chunk_store (world ChangedCommit.run)
  = [Samples.chunk_for "a/b" "z.md"; Samples.chunk_for "a/b" "x.py"].
Proof. vm_compute. reflexivity. Qed.

(** ** Further properties of the engine *)

Lemma run_shape env repository fr fd fc fe w :
  RunShape env repository fr fd fc fe w (index_repository env repository fr fd fc fe w).
Proof.
  destruct (get_repository_info env repository) as [current | e] eqn:Hinfo.
  2: { apply (run_unresolved _ _ _ _ _ _ _ _ e); [done |].
       by apply index_repository_raise. }
  rewrite (index_repository_unfold _ _ _ _ _ _ _ current) by done.
  destruct (check_existing _ _ _ _ _ _) as [e | st] eqn:Hplan.
  { apply (run_early _ _ _ _ _ _ _ _ current e); [done | | done].
    unfold check_existing in Hplan. destruct (repositories w !! repository); [| done].
    destruct (same_commit _ _ _); [| done].
    match type of Hplan with (if ?b then _ else _) = _ => destruct b end; [| done].
    by injection Hplan as ->. }
  pose proof (check_existing_continue _ _ _ _ _ _ _ Hplan) as (Hkey & Hrd & Htd & Hcs & _).
  destruct (need_download st) eqn:Hnd.
  - destruct (fetch_repository_contents env repository (mkdtemp env (scratch w)))
      as [[dl rd] | e] eqn:Hf.
    + apply (run_downloaded _ _ _ _ _ _ _ _ current st dl rd); try done.
      rewrite (run_stages_download_ok _ _ _ _ _ _ dl rd) by done.
      cbv zeta. by rewrite scope_files_repo_info.
    + apply (run_download_failed _ _ _ _ _ _ _ _ current st e); try done.
      by rewrite (run_stages_download_raise _ _ _ _ _ _ e) by done.
  - apply (run_without_download _ _ _ _ _ _ _ _ current st); try done.
    by rewrite run_stages_no_download.
Qed.



(** X2: the early return of line 132 is taken exactly when there is a prior
    state with a non-empty commit hash equal to the observed one, no force
    flag is set and all three stage flags of the prior state are set. *)
Theorem early_return_iff existing current fr fd fc fe e :
  check_existing existing current fr (if fr then true else fd) (if fr then true else fc)
    (if fr then true else fe) = ReturnExisting e
  ↔ existing = Some e
    ∧ fr = false ∧ fd = false ∧ fc = false ∧ fe = false
    ∧ opt_str_truthy (RepositoryInfo.commit_hash e) = true
    ∧ RepositoryInfo.commit_hash e = RepositoryInfo.commit_hash current
    ∧ RepositoryInfo.download_successful e = true
    ∧ RepositoryInfo.chunking_successful e = true
    ∧ RepositoryInfo.embedding_successful e = true.
Proof.
  unfold check_existing, same_commit. split.
  - destruct existing as [e' |]; [| done].
    destruct (opt_str_truthy (RepositoryInfo.commit_hash e')) eqn:Ht; [| done].
    destruct (bool_decide _) eqn:Hh; [| done].
    apply bool_decide_eq_true in Hh.
    destruct fr; [done |]. simpl.
    destruct fd; [done |].
    destruct (RepositoryInfo.download_successful e') eqn:Hd; [| done]. simpl.
    destruct fc; [done |].
    destruct (RepositoryInfo.chunking_successful e') eqn:Hc; [| done]. simpl.
    destruct fe; [done |].
    destruct (RepositoryInfo.embedding_successful e') eqn:He; [| done]. simpl.
    intros [= <-]. done.
  - intros (-> & -> & -> & -> & -> & Ht & Hh & Hd & Hc & He).
    by rewrite Ht, Hd, Hc, He, bool_decide_eq_true_2.
Qed.

(** X3: in every plan that is carried out the needs cascade: a download
    implies chunking, chunking implies embedding, and at least embedding is
    needed. *)
Theorem plan_needs_cascade existing current fr fd fc fe st :
  check_existing existing current fr fd fc fe = Continue st →
  (need_download st = true → need_chunking st = true)
  ∧ (need_chunking st = true → need_embedding st = true)
  ∧ need_embedding st = true.
Proof.
  unfold check_existing. destruct existing as [e |]; [| by intros [= <-]].
  destruct (same_commit e current fr); [| by intros [= <-]].
  destruct fd, (RepositoryInfo.download_successful e), fc,
    (RepositoryInfo.chunking_successful e), fe, (RepositoryInfo.embedding_successful e);
    simpl; intros [= <-]; done.
Qed.

Lemma plan_needs_cascade_witness :
  ∃ st,
    check_existing (Some (Samples.indexed "c2" Samples.new_hashes true true false))
      Samples.observed false false false false = Continue st
    ∧ need_download st = false ∧ need_chunking st = false ∧ need_embedding st = true.
Proof.
  eexists. split; [reflexivity |]. split; [reflexivity |]. split; [reflexivity |].
  exact (proj2 (proj2 (plan_needs_cascade
                         (Some (Samples.indexed "c2" Samples.new_hashes true true false))
                         Samples.observed false false false false _ eq_refl))).
Defined.

(** What the chunk step logs: chunking events, then at most one write. *)
Lemma chunk_stage_log env repository existing fc st w :
  ∃ evs ws,
    events (chunk_stage env repository existing fc st w) = evs ++ ws
    ∧ Forall (λ ev, is_chunking ev = true) evs
    ∧ (ws = [] ∨ ∃ r, ws = [EvAddRepository r]).
Proof.
  destruct (chunk_stage_shape env repository existing fc st w)
    as [-> | evs cs b r _ _ Hevs -> _ _ _].
  - exists [], []. simpl. auto.
  - exists evs, [EvAddRepository r]. repeat split; eauto.
Qed.

(** What the embed step logs: at most one call of [store_chunks], then at
    most one write. *)
Lemma embed_stage_log env st w :
  ∃ ss ws,
    events (embed_stage env st w) = ss ++ ws
    ∧ (ss = [] ∨ ∃ ok, ss = [EvStoreChunks (chunks st) ok])
    ∧ (ws = [] ∨ ∃ r, ws = [EvAddRepository r]).
Proof.
  destruct (embed_stage_shape env st w) as [? -> | ? ? ? ? -> | ? ? ? ? -> | ? ? ? ? ? ->].
  - exists [], []. auto.
  - exists [], [EvAddRepository r]. simpl. repeat split; eauto.
  - exists [EvStoreChunks (chunks st) true], [EvAddRepository r]. simpl. repeat split; eauto.
  - exists [EvStoreChunks (chunks st) false], [EvAddRepository r]. simpl. repeat split; eauto.
Qed.

Lemma cleanup_log env st w :
  events (cleanup env st w) = [] ∨ ∃ d ok, events (cleanup env st w) = [EvRmtree d ok].
Proof.
  destruct (cleanup_shape env st w) as [? -> | ? ? -> | ? ? ->]; simpl; eauto.
Qed.

(** The log of any run, step by step. *)
Lemma run_log env repository fr fd fc fe w :
  ∃ dl ch cw ss sw cl,
    events (index_repository env repository fr fd fc fe w) = dl ++ ch ++ cw ++ ss ++ sw ++ cl
    ∧ (dl = [] ∨ ∃ d ok r, dl = [EvMkdtemp d; EvFetch repository ok; EvAddRepository r])
    ∧ Forall (λ ev, is_chunking ev = true) ch
    ∧ (cw = [] ∨ ∃ r, cw = [EvAddRepository r])
    ∧ (ss = [] ∨ ∃ cs ok, ss = [EvStoreChunks cs ok])
    ∧ (sw = [] ∨ ∃ r, sw = [EvAddRepository r])
    ∧ (cl = [] ∨ ∃ d ok, cl = [EvRmtree d ok]).
Proof.
  destruct (run_shape env repository fr fd fc fe w)
    as [e _ -> | current e _ _ -> | current st _ _ _ -> | current st e _ _ _ ->
        | current st dl rd d existing st2 r w1 pre oc _ _ _ _ ->].
  - exists [], [], [], [], [], []. simpl. repeat split; auto.
  - exists [], [], [], [], [], []. simpl. repeat split; auto.
  - destruct (embed_stage_log env st w) as (ss & sw & Hev & Hss & Hsw).
    exists [], [], [], ss, sw, []. simpl. rewrite Hev, app_nil_r.
    repeat split; auto. destruct Hss as [-> | [ok ->]]; eauto.
  - eexists [_; _; _], [], [], [], [], []. simpl. repeat split; eauto.
  - destruct (chunk_stage_log env repository existing (if fr then true else fc)
                (set_repo_info r st2) w1) as (ch & cw & Hch & Hchf & Hcw).
    fold oc in Hch.
    assert (dlok : pre = [] ∨ ∃ d ok r, pre = [EvMkdtemp d; EvFetch repository ok;
                                                 EvAddRepository r]) by (right; eauto).
    destruct (result oc) as [st3 | e].
    + destruct (embed_stage_log env st3 (world oc)) as (ss & sw & Hev & Hss & Hsw).
      assert (ss = [] ∨ ∃ cs ok, ss = [EvStoreChunks cs ok]) as Hss'
        by (destruct Hss as [-> | [ok ->]]; eauto).
      destruct (result (embed_stage env st3 (world oc))) as [st4 | e]; cbn [events].
      * exists pre, ch, cw, ss, sw,
          (events (cleanup env st4 (world (embed_stage env st3 (world oc))))).
        rewrite Hch, Hev, <- !app_assoc. repeat split; auto. apply cleanup_log.
      * exists pre, ch, cw, ss, sw, []. rewrite Hch, Hev, <- !app_assoc, app_nil_r.
        repeat split; auto.
    + cbn [events]. exists pre, ch, cw, [], [], []. rewrite Hch.
      simpl. rewrite app_nil_r. repeat split; auto.
Qed.

(** X4: the events of every run are in step order: the download (making the
    scratch directory, fetching, one write), then chunking events and at most
    one write, then at most one call of [store_chunks] and at most one write,
    then at most one [rmtree].  So a run writes the repository record at most
    three times and stores chunks at most once. *)
Theorem run_is_staged env repository fr fd fc fe w :
  let o := index_repository env repository fr fd fc fe w in
  (∃ dl ch cw ss sw cl,
     events o = dl ++ ch ++ cw ++ ss ++ sw ++ cl
     ∧ (dl = [] ∨ ∃ d ok r, dl = [EvMkdtemp d; EvFetch repository ok; EvAddRepository r])
     ∧ Forall (λ ev, is_chunking ev = true) ch
     ∧ (cw = [] ∨ ∃ r, cw = [EvAddRepository r])
     ∧ (ss = [] ∨ ∃ cs ok, ss = [EvStoreChunks cs ok])
     ∧ (sw = [] ∨ ∃ r, sw = [EvAddRepository r])
     ∧ (cl = [] ∨ ∃ d ok, cl = [EvRmtree d ok]))
  ∧ (length (persisted (events o)) ≤ 3)%nat
  ∧ (length (List.filter is_embedding (events o)) ≤ 1)%nat.
Proof.
  intros o. subst o.
  destruct (run_log env repository fr fd fc fe w)
    as (dl & ch & cw & ss & sw & cl & Hev & Hdl & Hch & Hcw & Hss & Hsw & Hcl).
  split; [by exists dl, ch, cw, ss, sw, cl |].
  assert (persisted ch = [] ∧ List.filter is_embedding ch = []) as [Hp Hf].
  { clear -Hch. induction Hch as [| ev ch Hev _ [IH1 IH2]]; [done |].
    destruct ev; simpl in *; try done. }
  rewrite Hev, !persisted_app, !List.filter_app, !length_app, Hp, Hf.
  destruct Hdl as [-> | (? & ? & ? & ->)], Hcw as [-> | [? ->]], Hss as [-> | (? & ? & ->)],
    Hsw as [-> | [? ->]], Hcl as [-> | (? & ? & ->)]; simpl; lia.
Qed.

Lemma persisted_chunking (evs : list Event) :
  Forall (λ ev, is_chunking ev = true) evs → persisted evs = [].
Proof.
  induction 1 as [| ev evs Hev _ IH]; [done |]. destruct ev; simpl in *; done.
Qed.

Lemma chunk_stage_synced env repository existing fc st w written st3 :
  synced st w written →
  result (chunk_stage env repository existing fc st w) = Ok st3 →
  synced st3 (world (chunk_stage env repository existing fc st w))
    (written ++ persisted (events (chunk_stage env repository existing fc st w))).
Proof.
  intros Hs.
  destruct (chunk_stage_shape env repository existing fc st w)
    as [-> | evs cs b r _ _ Hevs Hev Hrepo _ Hres].
  - simpl. intros [= <-]. by rewrite app_nil_r.
  - intros Hst3. destruct Hres as [Hres | (_ & e & _ & Hres)]; [| congruence].
    rewrite Hres in Hst3. injection Hst3 as <-.
    rewrite Hev, persisted_app, persisted_chunking by done. simpl.
    intros _. rewrite Hrepo. split; [apply lookup_insert_eq | apply last_snoc].
Qed.

Lemma embed_stage_synced env st w written st4 :
  synced st w written →
  result (embed_stage env st w) = Ok st4 →
  synced st4 (world (embed_stage env st w))
    (written ++ persisted (events (embed_stage env st w))).
Proof.
  intros Hs.
  destruct (embed_stage_shape env st w) as [? -> | ? ? ? ? -> | ? ? ? ? -> | ? ? ? ? ? ->];
    simpl; try done.
  - intros [= <-]. by rewrite app_nil_r.
  - intros [= <-] _. simpl. split; [apply lookup_insert_eq | apply last_snoc].
  - intros [= <-] _. simpl. split; [apply lookup_insert_eq | apply last_snoc].
Qed.

Lemma cleanup_keeps_store env st w :
  repositories (world (cleanup env st w)) = repositories w
  ∧ chunk_store (world (cleanup env st w)) = chunk_store w
  ∧ persisted (events (cleanup env st w)) = [].
Proof. by destruct (cleanup_shape env st w) as [? -> | ? ? -> | ? ? ->]. Qed.

(** X5: when a run returns normally and has written the repository record
    at least once, the state it returns is the last one it wrote, and it is
    what the store holds under the repository's full name. *)
Theorem returned_state_is_stored env repository fr fd fc fe w r :
  let o := index_repository env repository fr fd fc fe w in
  result o = Ok r →
  persisted (events o) ≠ [] →
  repositories (world o) !! RepositoryInfo.full_name r = Some r
  ∧ last (persisted (events o)) = Some r.
Proof.
  intros o. subst o.
  destruct (run_shape env repository fr fd fc fe w)
    as [e _ -> | current e _ _ -> | current st _ _ _ -> | current st e _ _ _ ->
        | current st dl rd d existing st2 r1 w1 pre oc _ Hplan _ _ ->]; try done.
  - destruct (result (embed_stage env st w)) as [st' |] eqn:Hres; [| done].
    simpl. intros [= <-] Hne.
    apply (embed_stage_synced env st w [] st'); try done.
  - assert (synced (set_repo_info r1 st2) w1 (persisted pre)) as Hs1.
    { intros _. simpl. split; [apply lookup_insert_eq | done]. }
    destruct (result oc) as [st3 |] eqn:Hoc; [| done].
    pose proof (chunk_stage_synced _ _ _ _ _ _ _ _ Hs1 Hoc) as Hs3. fold oc in Hs3.
    destruct (result (embed_stage env st3 (world oc))) as [st4 |] eqn:Hoe; [| done].
    pose proof (embed_stage_synced _ _ _ _ _ Hs3 Hoe) as Hs4.
    cbn [result events world]. intros [= <-] Hne.
    destruct (cleanup_keeps_store env st4 (world (embed_stage env st3 (world oc))))
      as (Hrepo & _ & Hp).
    rewrite Hrepo, !persisted_app, Hp, app_nil_r, app_assoc.
    apply Hs4. rewrite <- app_assoc. simpl. done.
Qed.

Lemma returned_state_is_stored_witness :
  let o := index_repository Samples.healthy "a/b" false false false false
             Samples.empty_world in
  ∃ r, result o = Ok r
       ∧ repositories (world o) !! RepositoryInfo.full_name r = Some r
       ∧ last (persisted (events o)) = Some r.
Proof.
  intros o. eexists. split; [vm_compute; reflexivity |].
  apply (returned_state_is_stored Samples.healthy "a/b" false false false false
           Samples.empty_world).
  - vm_compute. reflexivity.
  - vm_compute. discriminate.
Defined.

Lemma in_stage_events (P : Event → Prop) (evs : list Event) (ev : Event) :
  Forall P evs → ev ∈ evs → P ev.
Proof. intros H. by apply Forall_forall. Qed.

(** X6: if storing the chunks fails, the run ends there: it writes a state
    with [embedding_successful = False], which is what the store then holds,
    and raises the error of [store_chunks]; the cleanup is not reached. *)
Theorem embed_failure_is_recorded env repository fr fd fc fe w cs :
  let o := index_repository env repository fr fd fc fe w in
  EvStoreChunks cs false ∈ events o →
  ∃ e r before,
    result o = Raise e
    ∧ store_chunks_error env cs = Some e
    ∧ events o = before ++ [EvStoreChunks cs false; EvAddRepository r]
    ∧ RepositoryInfo.embedding_successful r = false
    ∧ repositories (world o) !! RepositoryInfo.full_name r = Some r.
Proof.
  intros o. subst o.
  destruct (run_shape env repository fr fd fc fe w)
    as [e _ -> | current e _ _ -> | current st _ Hplan _ -> | current st e _ _ _ ->
        | current st dl rd d existing st2 r1 w1 pre oc _ Hplan _ _ ->].
  - by intros ?%elem_of_nil.
  - by intros ?%elem_of_nil.
  - apply check_existing_continue in Hplan as (_ & _ & _ & Hcs & _).
    destruct (embed_stage_shape env st w) as [? -> | ? ? ? ? -> | ? ? ? ? -> | ? ? ? ? ? ->];
      simpl; try done.
    + by intros ?%elem_of_nil.
    + intros [? | ?%elem_of_nil]%elem_of_cons; done.
  - simpl. intros Hin. repeat (apply elem_of_cons in Hin as [? | Hin]; [done |]).
    by apply elem_of_nil in Hin.
  - assert (∀ l, Forall (λ ev, is_chunking ev = true ∨ is_persist ev = true) l →
                 EvStoreChunks cs false ∉ l) as Hnc.
    { intros l Hl Hin. by destruct (in_stage_events _ _ _ Hl Hin). }
    assert (EvStoreChunks cs false ∉ pre) as Hpre.
    { intros Hin. repeat (apply elem_of_cons in Hin as [? | Hin]; [done |]).
      by apply elem_of_nil in Hin. }
    pose proof (Hnc _ (chunk_stage_events env repository existing (if fr then true else fc)
                         (set_repo_info r1 st2) w1)) as Hoc. fold oc in Hoc.
    destruct (result oc) as [st3 | e].
    2: { cbn [events]. by intros [? | ?]%elem_of_app. }
    destruct (embed_stage_shape env st3 (world oc))
      as [? -> | r ? ? ? -> | r ? ? ? -> | e r ? ? Hst ->]; cbn [result events world].
    + rewrite app_nil_l. intros [? | [? | Hin]%elem_of_app]%elem_of_app; try done.
      destruct (in_stage_events _ _ _ (cleanup_events _ _ _) Hin) as (? & ? & ?). done.
    + intros [? | [? | [Hin | Hin]%elem_of_app]%elem_of_app]%elem_of_app; try done.
      * apply elem_of_cons in Hin as [? | ?%elem_of_nil]; done.
      * destruct (in_stage_events _ _ _ (cleanup_events _ _ _) Hin) as (? & ? & ?). done.
    + intros [? | [? | [Hin | Hin]%elem_of_app]%elem_of_app]%elem_of_app; try done.
      * apply elem_of_cons in Hin as [? | Hin]; [done |].
        apply elem_of_cons in Hin as [? | ?%elem_of_nil]; done.
      * destruct (in_stage_events _ _ _ (cleanup_events _ _ _) Hin) as (? & ? & ?). done.
    + intros [? | [? | Hin]%elem_of_app]%elem_of_app; try done.
      apply elem_of_cons in Hin as [[= ->] | Hin].
      2: { apply elem_of_cons in Hin as [? | ?%elem_of_nil]; done. }
      exists e, r, (pre ++ events oc). rewrite <- app_assoc.
      repeat split; try done. simpl. apply lookup_insert_eq.
Qed.

Lemma embed_failure_is_recorded_witness :
  let o := index_repository Samples.failing_embedder "a/b" false false false false
             Samples.empty_world in
  ∃ cs e r before,
    result o = Raise e
    ∧ store_chunks_error Samples.failing_embedder cs = Some e
    ∧ events o = before ++ [EvStoreChunks cs false; EvAddRepository r]
    ∧ RepositoryInfo.embedding_successful r = false
    ∧ repositories (world o) !! RepositoryInfo.full_name r = Some r.
Proof.
  intros o.
  exists [Samples.chunk_for "a/b" "z.md"; Samples.chunk_for "a/b" "x.py"].
  apply (embed_failure_is_recorded Samples.failing_embedder "a/b" false false false false
           Samples.empty_world).
  vm_compute. apply list_elem_of_In. repeat first [by left | right].
Defined.

(** X7: when the fetch succeeds, the very next event is a write of a state
    with [download_successful = True] that carries the file hashes and the
    file count of the download and the observed commit hash. *)
Theorem download_success_is_recorded env repository fr fd fc fe w :
  let o := index_repository env repository fr fd fc fe w in
  EvFetch repository true ∈ events o →
  ∃ current dl rd r later,
    get_repository_info env repository = Ok current
    ∧ fetch_repository_contents env repository (mkdtemp env (scratch w)) = Ok (dl, rd)
    ∧ events o = [EvMkdtemp (mkdtemp env (scratch w)); EvFetch repository true;
                  EvAddRepository r] ++ later
    ∧ RepositoryInfo.download_successful r = true
    ∧ RepositoryInfo.file_hashes r = RepositoryInfo.file_hashes dl
    ∧ RepositoryInfo.num_files r = RepositoryInfo.num_files dl
    ∧ RepositoryInfo.commit_hash r = RepositoryInfo.commit_hash current.
Proof.
  intros o. subst o.
  destruct (run_shape env repository fr fd fc fe w)
    as [e _ -> | current e _ _ -> | current st _ Hplan _ -> | current st e _ _ _ ->
        | current st dl rd d existing st2 r1 w1 pre oc Hinfo Hplan _ Hf ->].
  - by intros ?%elem_of_nil.
  - by intros ?%elem_of_nil.
  - simpl. intros Hin.
    by destruct (in_stage_events _ _ _ (embed_stage_events env st w) Hin).
  - simpl. intros Hin. repeat (apply elem_of_cons in Hin as [? | Hin]; [done |]).
    by apply elem_of_nil in Hin.
  - intros _. apply check_existing_continue in Hplan as ([Hkey _] & _).
    exists current, dl, rd, r1.
    destruct (result oc) as [st3 | e];
      [destruct (result (embed_stage env st3 (world oc))) as [st4 | e] |];
      cbn [events]; eexists; (split; [done |]); (split; [done |]);
      (split; [reflexivity |]); done.
Qed.

Lemma download_success_is_recorded_witness :
  let o := index_repository Samples.healthy "a/b" false false false false
             Samples.empty_world in
  ∃ current dl rd r later,
    get_repository_info Samples.healthy "a/b" = Ok current
    ∧ fetch_repository_contents Samples.healthy "a/b"
        (mkdtemp Samples.healthy (scratch Samples.empty_world)) = Ok (dl, rd)
    ∧ events o = [EvMkdtemp (mkdtemp Samples.healthy (scratch Samples.empty_world));
                  EvFetch "a/b" true; EvAddRepository r] ++ later
    ∧ RepositoryInfo.download_successful r = true
    ∧ RepositoryInfo.file_hashes r = RepositoryInfo.file_hashes dl
    ∧ RepositoryInfo.num_files r = RepositoryInfo.num_files dl
    ∧ RepositoryInfo.commit_hash r = RepositoryInfo.commit_hash current.
Proof.
  intros o.
  apply (download_success_is_recorded Samples.healthy "a/b" false false false false
           Samples.empty_world).
  vm_compute. apply list_elem_of_In. right. left. reflexivity.
Defined.




(** X9: [force_rechunk] without a download does nothing.  When the commit
    hash is unchanged and the prior download succeeded, a call with only
    [force_rechunk] (with or without [force_reembed]) skips the download and
    then has no directory to chunk: it logs nothing, changes nothing and
    returns the freshly observed info. *)
Theorem rechunk_without_download_does_nothing env repository w e current fe :
  get_repository_info env repository = Ok current →
  repositories w !! repository = Some e →
  opt_str_truthy (RepositoryInfo.commit_hash e) = true →
  RepositoryInfo.commit_hash e = RepositoryInfo.commit_hash current →
  RepositoryInfo.download_successful e = true →
  index_repository env repository false false true fe w = mkOutcome (Ok current) w [].
Proof.
  intros Hinfo Hex Ht Hh Hd.
  rewrite (index_repository_unfold _ _ _ _ _ _ _ current) by done.
  rewrite Hex. unfold check_existing, same_commit.
  rewrite Ht, Hd, bool_decide_eq_true_2 by done. simpl.
  rewrite run_stages_no_download by done.
  by rewrite embed_stage_skip.
Qed.

Lemma rechunk_without_download_does_nothing_witness :
  let e := Samples.indexed "c2" Samples.new_hashes true true true in
  let w := Samples.world_with e [] in
  index_repository Samples.healthy "a/b" false false true true w
  = mkOutcome (Ok Samples.observed) w [].
Proof.
  intros e w.
  apply (rechunk_without_download_does_nothing Samples.healthy "a/b" w e Samples.observed);
    reflexivity.
Defined.

(** The gathering only removes chunks from the store. *)
Lemma gather_store_subset env repository rd existing diff to_chunk to_delete w c :
  c ∈ chunk_store (world (gather env repository rd existing diff to_chunk to_delete w)) →
  c ∈ chunk_store w.
Proof.
  unfold gather. destruct diff; rewrite bind_unfold.
  - destruct (gathers_for_each (elements to_delete) (delete_file_chunks repository)
                (gathers_delete_file_chunks repository) w) as ([[] Hr] & _).
    destruct (set_truthy to_delete); [rewrite Hr |]; cbn [result world ret].
    + intros Hin%chunk_changed_files_store. by apply for_each_delete_store in Hin as [? _].
    + apply chunk_changed_files_store.
  - destruct existing; simpl; [| done].
    intros Hin. apply list_elem_of_In, filter_In in Hin as [Hin _]. by apply list_elem_of_In.
Qed.

(** The first index of a repository, when every collaborator call
    succeeds and the chunker yields at least one chunk. *)
Lemma first_index_outcome env repository (fr fd fc fe : bool) w current dl rd :
  get_repository_info env repository = Ok current →
  repositories w !! repository = None →
  fetch_repository_contents env repository (mkdtemp env (scratch w)) = Ok (dl, Some rd) →
  let to_chunk : gset string := list_to_set (get_text_files env rd) in
  let diff := set_truthy to_chunk && negb (if fr then true else fc) in
  let out := produced_chunks env repository rd diff to_chunk in
  out.2 = None → out.1 ≠ [] → store_chunks_error env out.1 = None →
  let r := RepositoryInfo.set_last_indexed (Some (now env))
             (RepositoryInfo.set_embedding_successful true
                (RepositoryInfo.set_num_chunks (length out.1)
                   (RepositoryInfo.set_chunking_successful true
                      (RepositoryInfo.set_file_hashes (RepositoryInfo.file_hashes dl)
                         (RepositoryInfo.set_download_successful true
                            (RepositoryInfo.set_num_files (RepositoryInfo.num_files dl)
                               current)))))) in
  let o := index_repository env repository fr fd fc fe w in
  result o = Ok r
  ∧ repositories (world o)
    = <[RepositoryInfo.full_name current := r]> (repositories w)
  ∧ ∃ kept, chunk_store (world o) = kept ++ out.1 ∧ ∀ c, c ∈ kept → c ∈ chunk_store w.
Proof.
  intros Hinfo Hex Hfetch to_chunk diff out Herr Hne Hstore r o. subst o.
  rewrite (index_repository_unfold _ _ _ _ _ _ _ current) by done.
  rewrite Hex. cbn [check_existing].
  rewrite (run_stages_download_ok _ _ _ _ _ _ dl (Some rd)) by done. cbv zeta.
  cbn [scope_files set_need_chunking set_repo_dir set_temp_dir repo_dir repo_info
       set_files_to_chunk need_chunking temp_dir need_download need_embedding
       files_to_chunk files_to_delete chunks set_repo_info].
  fold to_chunk.
  match goal with
  | |- context [chunk_stage _ _ _ _ ?st ?wx] => set (stc := st); set (w1 := wx)
  end.
  rewrite (chunk_stage_gather _ _ _ _ stc w1 rd) by done.
  change (files_to_chunk stc) with to_chunk. fold diff.
  rewrite (bind_finish_chunking _ _ _ out) by apply gather_result.
  rewrite Herr. cbn [result world events].
  set (g := gather env repository rd None diff to_chunk (files_to_delete stc) w1).
  match goal with
  | |- context [embed_stage env ?st ?wx] => set (st3 := st); set (w2 := wx)
  end.
  destruct (embed_stage_shape env st3 w2) as [Hc ? | ? ? Hnc ? ? | ? ? ? ? -> | e ? ? ? Hst ?].
  - exfalso. simpl in Hc. by destruct (out.1).
  - done.
  - cbn [result world events].
    destruct (cleanup_keeps_store env (set_repo_info r0 st3)
                (mkWorld (<[RepositoryInfo.full_name r0 := r0]> (repositories w2))
                   (chunk_store w2 ++ chunks st3) (scratch w2))) as (Hrepo & Hcs & _).
    rewrite Hrepo, Hcs. split; [done |]. split.
    + simpl.
      assert (repositories (world g) = repositories w1) as ->.
      { subst g. unfold gather. destruct diff.
        - apply gathers_bind; [| intros _; apply gathers_chunk_changed_files].
          destruct (set_truthy _); [| apply gathers_ret].
          apply gathers_for_each, gathers_delete_file_chunks.
        - apply gathers_bind; [apply gathers_ret |].
          intros _. apply gathers_do_chunk_repository. }
      simpl. by rewrite !insert_insert_eq.
    + exists (chunk_store (world g)). split; [done |].
      intros c Hc. by apply gather_store_subset in Hc.
  - simpl in Hst. congruence.
Qed.

(** X10: the first index of a repository, whatever the force flags.  If the
    fetch succeeds and yields a directory, the chunker does not fail and
    yields at least one chunk, and storing them succeeds, then the run returns
    a state with all three stage flags set, the observed commit hash, the file
    hashes and file count of the download, [num_chunks] the number of chunks
    and [last_indexed] the current time; the store holds that state under the
    repository's full name, and the chunks were added to the chunk store, from
    which otherwise chunks were at most removed. *)
Theorem first_index_completes env repository (fr fd fc fe : bool) w current dl rd :
  get_repository_info env repository = Ok current →
  repositories w !! repository = None →
  fetch_repository_contents env repository (mkdtemp env (scratch w)) = Ok (dl, Some rd) →
  let to_chunk : gset string := list_to_set (get_text_files env rd) in
  let out := produced_chunks env repository rd
               (set_truthy to_chunk && negb (if fr then true else fc)) to_chunk in
  out.2 = None → out.1 ≠ [] → store_chunks_error env out.1 = None →
  let o := index_repository env repository fr fd fc fe w in
  ∃ r, result o = Ok r
       ∧ RepositoryInfo.download_successful r = true
       ∧ RepositoryInfo.chunking_successful r = true
       ∧ RepositoryInfo.embedding_successful r = true
       ∧ RepositoryInfo.commit_hash r = RepositoryInfo.commit_hash current
       ∧ RepositoryInfo.file_hashes r = RepositoryInfo.file_hashes dl
       ∧ RepositoryInfo.num_files r = RepositoryInfo.num_files dl
       ∧ RepositoryInfo.num_chunks r = length out.1
       ∧ RepositoryInfo.last_indexed r = Some (now env)
       ∧ repositories (world o) !! RepositoryInfo.full_name current = Some r
       ∧ ∃ kept, chunk_store (world o) = kept ++ out.1 ∧ ∀ c, c ∈ kept → c ∈ chunk_store w.
Proof.
  intros Hinfo Hex Hfetch to_chunk out Herr Hne Hstore o.
  destruct (first_index_outcome env repository fr fd fc fe w current dl rd
              Hinfo Hex Hfetch Herr Hne Hstore) as (Hres & Hrepo & Hkept).
  eexists. split; [exact Hres |]. repeat (split; [reflexivity |]).
  split; [| exact Hkept]. subst o. rewrite Hrepo. apply lookup_insert_eq.
Qed.

Lemma first_index_completes_witness :
  let o := index_repository Samples.healthy "a/b" false false false false
             Samples.empty_world in
  ∃ r, result o = Ok r
       ∧ RepositoryInfo.download_successful r = true
       ∧ RepositoryInfo.chunking_successful r = true
       ∧ RepositoryInfo.embedding_successful r = true
       ∧ RepositoryInfo.num_chunks r = 2
       ∧ repositories (world o) !! "a/b" = Some r.
Proof.
  intros o.
  destruct (first_index_completes Samples.healthy "a/b" false false false false
              Samples.empty_world Samples.observed
              (RepositoryInfo.set_num_files 2
                 (RepositoryInfo.set_file_hashes Samples.new_hashes Samples.observed))
              "/tmp/reposearch_0")
    as (r & Hres & Hd & Hc & He & _ & _ & _ & Hn & _ & Hrepo & _).
  - reflexivity.
  - reflexivity.
  - reflexivity.
  - vm_compute. reflexivity.
  - vm_compute. discriminate.
  - reflexivity.
  - exists r. repeat split; done.
Defined.

(** X11: indexing twice.  After such a first index, a second call without
    force flags, with the same commit hash observed, does nothing and returns
    the state the first call returned.  The fetcher is taken to name the
    repository as it was asked for and to report a non-empty commit hash. *)
Theorem second_index_is_noop env repository (fr fd fc fe : bool) w current dl rd :
  get_repository_info env repository = Ok current →
  RepositoryInfo.full_name current = repository →
  opt_str_truthy (RepositoryInfo.commit_hash current) = true →
  repositories w !! repository = None →
  fetch_repository_contents env repository (mkdtemp env (scratch w)) = Ok (dl, Some rd) →
  let to_chunk : gset string := list_to_set (get_text_files env rd) in
  let out := produced_chunks env repository rd
               (set_truthy to_chunk && negb (if fr then true else fc)) to_chunk in
  out.2 = None → out.1 ≠ [] → store_chunks_error env out.1 = None →
  let first := index_repository env repository fr fd fc fe w in
  index_repository env repository false false false false (world first)
  = mkOutcome (result first) (world first) [].
Proof.
  intros Hinfo Hname Ht Hex Hfetch to_chunk out Herr Hne Hstore first.
  destruct (first_index_outcome env repository fr fd fc fe w current dl rd
              Hinfo Hex Hfetch Herr Hne Hstore) as (Hres & Hrepo & _).
  fold first in Hres, Hrepo.
  rewrite (index_repository_unfold _ _ _ _ _ _ _ current) by done.
  rewrite Hrepo, Hname, lookup_insert_eq, Hres.
  unfold check_existing, same_commit. simpl.
  by rewrite Ht, bool_decide_eq_true_2.
Qed.

Lemma second_index_is_noop_witness :
  let first := index_repository Samples.healthy "a/b" false false false false
                 Samples.empty_world in
  index_repository Samples.healthy "a/b" false false false false (world first)
  = mkOutcome (result first) (world first) [].
Proof.
  intros first.
  apply (second_index_is_noop Samples.healthy "a/b" false false false false
           Samples.empty_world Samples.observed
           (RepositoryInfo.set_num_files 2
              (RepositoryInfo.set_file_hashes Samples.new_hashes Samples.observed))
           "/tmp/reposearch_0").
  - reflexivity.
  - reflexivity.
  - reflexivity.
  - reflexivity.
  - reflexivity.
  - vm_compute. reflexivity.
  - vm_compute. discriminate.
  - reflexivity.
Defined.

(** X12: nothing changed and nothing was deleted exactly when the two hash
    mappings are the same. *)
Theorem change_set_empty_iff (old new : gmap string string) :
  changed_files old new = ∅ ∧ deleted_files old new = ∅ ↔ old = new.
Proof.
  split.
  - intros [Hc Hd]. apply map_eq. intros p.
    destruct (new !! p) as [h |] eqn:Hnew.
    + destruct (decide (old !! p = Some h)) as [? | Hne]; [done |].
      assert (p ∈ changed_files old new) as Hin by (apply elem_of_changed_files; eauto).
      rewrite Hc in Hin. by apply not_elem_of_empty in Hin.
    + destruct (old !! p) as [h |] eqn:Hold; [| done].
      assert (p ∈ deleted_files old new) as Hin
        by (apply elem_of_deleted_files; rewrite Hold; eauto).
      rewrite Hd in Hin. by apply not_elem_of_empty in Hin.
  - intros ->. split; apply set_eq; intros p; split;
      try (by intros ?%not_elem_of_empty).
    + intros (h & Hh & Hne)%elem_of_changed_files. done.
    + intros ([h Hh] & Hnone)%elem_of_deleted_files. congruence.
Qed.

(** The chunk loop does not depend on how [rmtree] behaves. *)
Lemma chunk_changed_files_rmtree f env repository rd files acc w :
  chunk_changed_files (with_rmtree_error f env) repository rd files acc w
  = chunk_changed_files env repository rd files acc w.
Proof.
  revert acc w. induction files as [| p files IH]; intros acc w; [done |].
  cbn [chunk_changed_files with_rmtree_error path_is_file is_text_file].
  destruct (path_is_file env rd p); [| apply IH].
  rewrite !bind_unfold. cbn [result world events delete_file_chunks].
  destruct (is_text_file env rd p); [| by rewrite IH].
  rewrite !bind_unfold. unfold do_chunk_file. cbn [with_rmtree_error chunk_file].
  destruct (chunk_file env rd p repository); cbn [result world events]; [| done].
  by rewrite IH.
Qed.

Lemma chunk_stage_rmtree f env repository existing fc st w :
  chunk_stage (with_rmtree_error f env) repository existing fc st w
  = chunk_stage env repository existing fc st w.
Proof.
  unfold chunk_stage. destruct (repo_dir st) as [rd |]; [| done].
  destruct (need_chunking st); [| done].
  destruct (_ && _); [| done].
  rewrite !bind_unfold.
  destruct (result _) as [[] | e]; [| done].
  by rewrite ?bind_unfold, !chunk_changed_files_rmtree.
Qed.

(** X13: a failing cleanup cannot change what a run returns or stores.
    With any other behaviour of [rmtree], the result, the persisted
    repositories and the chunk store of a run are the same. *)
Theorem cleanup_failure_is_harmless f env repository fr fd fc fe w :
  let o := index_repository env repository fr fd fc fe w in
  let o' := index_repository (with_rmtree_error f env) repository fr fd fc fe w in
  result o' = result o
  ∧ repositories (world o') = repositories (world o)
  ∧ chunk_store (world o') = chunk_store (world o)
  ∧ persisted (events o') = persisted (events o).
Proof.
  intros o o'. subst o o'.
  destruct (get_repository_info env repository) as [current | e] eqn:Hinfo.
  2: { rewrite !(index_repository_raise _ _ _ _ _ _ _ e) by done. done. }
  rewrite !(index_repository_unfold _ _ _ _ _ _ _ current) by done.
  destruct (check_existing _ _ _ _ _ _) as [e | st]; [done |].
  unfold run_stages.
  change (download_stage (with_rmtree_error f env)) with (download_stage env).
  change (embed_stage (with_rmtree_error f env)) with (embed_stage env).
  rewrite !bind_unfold.
  destruct (result (download_stage env repository _ _ st w)) as [st1 | e]; [| done].
  cbn [result world events].
  rewrite !bind_unfold, chunk_stage_rmtree.
  destruct (result (chunk_stage env repository _ _ st1 _)) as [st3 | e]; [| done].
  cbn [result world events].
  rewrite !bind_unfold.
  destruct (result (embed_stage env st3 _)) as [st4 | e]; [| done].
  cbn [result world events].
  rewrite !bind_unfold, !cleanup_result. cbn [result world events ret].
  rewrite !app_nil_r, !persisted_app.
  match goal with
  | |- context [cleanup (with_rmtree_error f env) ?s ?x] =>
      destruct (cleanup_keeps_store (with_rmtree_error f env) s x) as (-> & -> & ->);
      destruct (cleanup_keeps_store env s x) as (-> & -> & ->)
  end.
  done.
Qed.

Lemma cleanup_of_directory env st w d :
  temp_dir st = Some d → str_truthy d = true →
  cleanup env st w =
  if rmtree_succeeds env d
  then mkOutcome (Ok tt) (mkWorld (repositories w) (chunk_store w) (scratch w ∖ {[d]}))
         [EvRmtree d true]
  else mkOutcome (Ok tt) w [EvRmtree d false].
Proof.
  intros Hd Ht. unfold cleanup, rmtree_succeeds, try_except, do_rmtree.
  rewrite Hd. simpl. rewrite Ht. by destruct (rmtree_error env d).
Qed.

Lemma chunk_stage_keeps_directory env repository existing fc st w st3 :
  result (chunk_stage env repository existing fc st w) = Ok st3 →
  temp_dir st3 = temp_dir st
  ∧ scratch (world (chunk_stage env repository existing fc st w)) = scratch w.
Proof.
  destruct (chunk_stage_shape env repository existing fc st w)
    as [-> | evs cs b r _ _ _ _ _ Hs Hres].
  - by intros [= <-].
  - intros Hst3. destruct Hres as [Hres | (_ & e & _ & Hres)]; [| congruence].
    rewrite Hres in Hst3. by injection Hst3 as <-.
Qed.

Lemma embed_stage_keeps_directory env st w st4 :
  result (embed_stage env st w) = Ok st4 →
  temp_dir st4 = temp_dir st ∧ scratch (world (embed_stage env st w)) = scratch w.
Proof.
  destruct (embed_stage_shape env st w) as [? -> | ? ? ? ? -> | ? ? ? ? -> | ? ? ? ? ? ->];
    simpl; try done; by intros [= <-].
Qed.

(** X14: on a normal return after a download the cleanup is the last thing
    that happens: the last event is [rmtree] of the scratch directory, and if
    it succeeds the directory is gone.  ([mkdtemp] returns a non-empty
    path.) *)
Theorem scratch_removed_on_normal_return env repository fr fd fc fe w r :
  let o := index_repository env repository fr fd fc fe w in
  let d := mkdtemp env (scratch w) in
  result o = Ok r →
  EvFetch repository true ∈ events o →
  str_truthy d = true →
  (∃ before, events o = before ++ [EvRmtree d (rmtree_succeeds env d)]
             ∧ Forall (λ ev, is_cleanup ev = false) before)
  ∧ (rmtree_succeeds env d = true → d ∉ scratch (world o)).
Proof.
  intros o d. subst o.
  destruct (run_shape env repository fr fd fc fe w)
    as [e _ -> | current e _ _ -> | current st _ Hplan _ -> | current st e _ _ _ ->
        | current st dl rd d' existing st2 r1 w1 pre oc _ Hplan _ _ ->]; try done.
  - by intros _ ?%elem_of_nil.
  - intros _ Hin. simpl in Hin.
    by destruct (in_stage_events _ _ _ (embed_stage_events env st w) Hin).
  - apply check_existing_continue in Hplan as (_ & _ & Htd & _).
    destruct (result oc) as [st3 |] eqn:Hoc; [| done].
    destruct (chunk_stage_keeps_directory _ _ _ _ _ _ _ Hoc) as [Ht3 Hs3].
    fold oc in Hs3.
    destruct (result (embed_stage env st3 (world oc))) as [st4 |] eqn:Hoe; [| done].
    destruct (embed_stage_keeps_directory _ _ _ _ Hoe) as [Ht4 Hs4].
    cbn [result events world]. intros _ _ Htruthy.
    assert (temp_dir st4 = Some d) as Hd.
    { rewrite Ht4, Ht3. cbn [set_repo_info temp_dir]. unfold st2.
      by rewrite scope_files_temp_dir. }
    rewrite (cleanup_of_directory env st4 _ d Hd Htruthy).
    assert (Forall (λ ev, is_cleanup ev = false)
              (pre ++ events oc ++ events (embed_stage env st3 (world oc)))) as Hbefore.
    { repeat (apply Forall_app; split).
      - repeat (apply Forall_cons; split; [done |]). constructor.
      - eapply Forall_impl; [apply chunk_stage_events |]. intros [] [? | ?]; done.
      - eapply Forall_impl; [apply embed_stage_events |]. intros [] [? | ?]; done. }
    destruct (rmtree_succeeds env d); cbn [events world scratch].
    + split.
      * exists (pre ++ events oc ++ events (embed_stage env st3 (world oc))).
        by rewrite <- !app_assoc.
      * intros _ [_ Hn]%elem_of_difference. apply Hn. by apply elem_of_singleton.
    + split; [| done].
      exists (pre ++ events oc ++ events (embed_stage env st3 (world oc))).
      by rewrite <- !app_assoc.
Qed.

Lemma scratch_removed_on_normal_return_witness :
  let o := index_repository Samples.healthy "a/b" false false false false
             Samples.empty_world in
  (∃ before, events o = before ++ [EvRmtree "/tmp/reposearch_0" true]
             ∧ Forall (λ ev, is_cleanup ev = false) before)
  ∧ "/tmp/reposearch_0" ∉ scratch (world o).
Proof.
  intros o.
  destruct (scratch_removed_on_normal_return Samples.healthy "a/b" false false false false
              Samples.empty_world
              (RepositoryInfo.set_last_indexed (Some 1700000000%Z)
                 (RepositoryInfo.set_embedding_successful true
                    (RepositoryInfo.set_num_chunks 2
                       (RepositoryInfo.set_chunking_successful true Samples.downloaded)))))
    as [Hev Hgone].
  - vm_compute. reflexivity.
  - vm_compute. apply list_elem_of_In. right. left. reflexivity.
  - reflexivity.
  - split; [exact Hev | by apply Hgone].
Defined.

(** X15: [search] treats a limit of 0 and a falsy score threshold like
    missing arguments: the database is asked with the configured
    defaults. *)
Theorem search_falsy_arguments_are_defaults {Score Results : Type}
    (score_truthy : Score → bool) (config : Config.t Score)
    (db_search : string → option string → Z → Score → Results)
    (query : string) (repository : option string)
    (limit : option Z) (score_threshold : option Score) :
  (limit = None ∨ limit = Some 0%Z) →
  (score_threshold = None ∨ ∃ s, score_threshold = Some s ∧ score_truthy s = false) →
  search score_truthy config db_search query repository limit score_threshold
  = db_search query repository (Config.max_results config) (Config.score_threshold config).
Proof.
  intros [-> | ->] [-> | (s & -> & Hs)]; unfold search, or_default; simpl;
    by rewrite ?Hs.
Qed.

Lemma search_falsy_arguments_are_defaults_witness :
  search int_truthy (Config.mk 10%Z 5%Z) (λ q r l s, (q, r, l, s)) "q" None
    (Some 0%Z) (Some 0%Z)
  = ("q", None, 10%Z, 5%Z).
Proof.
  apply (search_falsy_arguments_are_defaults int_truthy (Config.mk 10%Z 5%Z)
           (λ q r l s, (q, r, l, s)) "q" None (Some 0%Z) (Some 0%Z)).
  - by right.
  - right. by exists 0%Z.
Defined.

Lemma fails_last_app (failed : bool) (a evs : list Event) :
  Forall (λ ev, chunker_failed ev = false) a → fails_last failed evs →
  fails_last failed (a ++ evs).
Proof.
  intros Ha. destruct failed; simpl.
  - intros (before & x & -> & Hx & Hb). exists (a ++ before), x.
    rewrite app_assoc. repeat split; [done |]. by apply Forall_app.
  - intros Hb. by apply Forall_app.
Qed.

Lemma chunk_changed_files_fails_last env repository rd files acc w :
  fails_last (bool_decide (is_Some (changed_files_chunks env repository rd files acc).2))
    (events (chunk_changed_files env repository rd files acc w)).
Proof.
  revert acc w. induction files as [| p files IH]; intros acc w.
  - simpl. constructor.
  - cbn [chunk_changed_files changed_files_chunks].
    destruct (path_is_file env rd p); [| apply IH].
    rewrite events_bind. cbn [result world events delete_file_chunks].
    apply (fails_last_app _ [_]); [by repeat constructor |].
    destruct (is_text_file env rd p); [| apply IH].
    rewrite events_bind. unfold do_chunk_file.
    destruct (chunk_file env rd p repository) as [cs | e]; cbn [result world events].
    + apply (fails_last_app _ [_]); [by repeat constructor | apply IH].
    + simpl. exists [], (EvChunkFile p false). by repeat split.
Qed.

Lemma gather_fails_last env repository rd existing diff to_chunk to_delete w :
  fails_last (bool_decide (is_Some (produced_chunks env repository rd diff to_chunk).2))
    (events (gather env repository rd existing diff to_chunk to_delete w)).
Proof.
  unfold gather, produced_chunks. destruct diff; rewrite events_bind.
  - apply fails_last_app.
    + destruct (set_truthy to_delete); [| constructor].
      eapply Forall_impl; [apply for_each_delete_events |]. by intros ev [p ->].
    + destruct (gathers_for_each (elements to_delete) (delete_file_chunks repository)
                  (gathers_delete_file_chunks repository) w) as ([[] Hr] & _).
      destruct (set_truthy to_delete); [rewrite Hr |]; cbn [result ret];
        apply chunk_changed_files_fails_last.
  - apply fails_last_app; [destruct existing; by repeat constructor |].
    assert (result ((match existing with
                     | Some _ => delete_repository_chunks repository
                     | None => ret ()
                     end) w) = Ok tt) as -> by (by destruct existing).
    simpl. destruct (chunk_repository env repository rd).2 as [e |].
    + rewrite bool_decide_eq_true_2, bool_decide_eq_false_2 by eauto.
      exists [], (EvChunkRepository false). by repeat split.
    + rewrite bool_decide_eq_false_2, bool_decide_eq_true_2 by (by try intros [? ?]).
      by repeat constructor.
Qed.

(** In the chunk step a failed chunker call is the last chunking event and
    is followed by the write of [chunking_successful = False]. *)
Lemma chunk_stage_failure env repository existing fc st w :
  let evs := events (chunk_stage env repository existing fc st w) in
  Forall (λ ev, chunker_failed ev = false) evs
  ∨ ∃ before x r,
      evs = before ++ [x; EvAddRepository r]
      ∧ Forall (λ ev, chunker_failed ev = false) before
      ∧ chunker_failed x = true
      ∧ RepositoryInfo.chunking_successful r = false.
Proof.
  intros evs. subst evs.
  destruct (repo_dir st) as [rd |] eqn:Hrd.
  2: { rewrite chunk_stage_skip by done. left. constructor. }
  destruct (need_chunking st) eqn:Hnc.
  2: { unfold chunk_stage. rewrite Hrd, Hnc. left. constructor. }
  rewrite (chunk_stage_gather _ _ _ _ _ _ rd) by done.
  set (diff := set_truthy (files_to_chunk st) && negb fc).
  rewrite (bind_finish_chunking _ _ _ (produced_chunks env repository rd diff (files_to_chunk st)))
    by apply gather_result.
  cbn [events].
  pose proof (gather_fails_last env repository rd existing diff (files_to_chunk st)
                (files_to_delete st) w) as Hg.
  destruct (produced_chunks env repository rd diff (files_to_chunk st)).2 as [e |].
  - rewrite bool_decide_eq_true_2 in Hg by eauto.
    destruct Hg as (before & x & -> & Hx & Hb). right.
    exists before, x. eexists. rewrite <- app_assoc. by repeat split.
  - rewrite bool_decide_eq_false_2 in Hg by (by intros [? ?]). left.
    apply Forall_app. split; [done |]. by repeat constructor.
Qed.

Lemma split_at_failure (a b before after : list Event) (x ev : Event) :
  a ++ x :: b = before ++ ev :: after →
  Forall (λ ev, chunker_failed ev = false) a →
  Forall (λ ev, chunker_failed ev = false) b →
  chunker_failed ev = true →
  before = a ∧ ev = x ∧ after = b.
Proof.
  revert before. induction a as [| y a IH]; intros before Heq Ha Hb Hev.
  - destruct before as [| z before]; simpl in Heq.
    + by injection Heq as -> ->.
    + injection Heq as -> ->. exfalso.
      assert (ev ∈ before ++ ev :: after) as Hin by (apply elem_of_app; right; left).
      apply (in_stage_events _ _ _ Hb) in Hin. congruence.
  - apply Forall_cons in Ha as [Hy Ha].
    destruct before as [| z before]; simpl in Heq.
    + injection Heq as -> _. congruence.
    + injection Heq as -> Heq. destruct (IH before Heq Ha Hb Hev) as (-> & -> & ->). done.
Qed.

(** X16: a chunker that fails ends the chunk step.  In every run, a call of
    [chunk_file] or [chunk_repository] that raised is followed at once by the
    write of a state with [chunking_successful = False], and no chunking
    event comes after it. *)
Theorem chunker_failure_ends_chunking env repository fr fd fc fe w before ev after :
  events (index_repository env repository fr fd fc fe w) = before ++ ev :: after →
  chunker_failed ev = true →
  ∃ r later,
    after = EvAddRepository r :: later
    ∧ RepositoryInfo.chunking_successful r = false
    ∧ Forall (λ ev, is_chunking ev = false) later
    ∧ Forall (λ ev, chunker_failed ev = false) before.
Proof.
  intros Heq Hev.
  assert (∀ l, Forall (λ ev, is_chunking ev = false) l →
               Forall (λ ev, chunker_failed ev = false) l) as Hweak.
  { intros l Hl. eapply Forall_impl; [exact Hl |]. by intros [| | | | ? [] | [] | | |]. }
  assert (∀ l, Forall (λ ev, chunker_failed ev = false) l → l = before ++ ev :: after → False)
    as Hnone.
  { intros l Hl ->. assert (ev ∈ before ++ ev :: after) as Hin by (apply elem_of_app; right; left).
    apply (in_stage_events _ _ _ Hl) in Hin. congruence. }
  revert Heq.
  destruct (run_shape env repository fr fd fc fe w)
    as [e _ -> | current e _ _ -> | current st _ Hplan _ -> | current st e _ _ _ ->
        | current st dl rd d existing st2 r1 w1 pre oc _ Hplan _ _ ->].
  - intros Heq. exfalso. by apply (Hnone []).
  - intros Heq. exfalso. by apply (Hnone []).
  - cbn [events]. intros Heq. exfalso. eapply Hnone; [| exact Heq].
    eapply Forall_impl; [apply embed_stage_events |]. intros [] [? | ?]; done.
  - cbn [events]. intros Heq. exfalso. eapply Hnone; [| exact Heq].
    by repeat constructor.
  - assert (Forall (λ ev, is_chunking ev = false) pre) as Hpre by (by repeat constructor).
    assert (∀ st3 w3, Forall (λ ev, is_chunking ev = false) (events (embed_stage env st3 w3)))
      as Hoe.
    { intros st3 w3. eapply Forall_impl; [apply embed_stage_events |].
      intros [] [? | ?]; done. }
    assert (∀ st4 w4, Forall (λ ev, is_chunking ev = false) (events (cleanup env st4 w4)))
      as Hcl.
    { intros st4 w4. eapply Forall_impl; [apply cleanup_events |]. by intros ? (? & ? & ->). }
    assert (∃ rest, Forall (λ ev, is_chunking ev = false) rest
                    ∧ events
                        match result oc with
                        | Ok st3 =>
                          match result (embed_stage env st3 (world oc)) with
                          | Ok st4 =>
                            mkOutcome (Ok (repo_info st4))
                              (world (cleanup env st4 (world (embed_stage env st3 (world oc)))))
                              (pre ++ events oc ++ events (embed_stage env st3 (world oc))
                               ++ events (cleanup env st4
                                            (world (embed_stage env st3 (world oc)))))
                          | Raise e =>
                            mkOutcome (Raise e) (world (embed_stage env st3 (world oc)))
                              (pre ++ events oc ++ events (embed_stage env st3 (world oc)))
                          end
                        | Raise e => mkOutcome (Raise e) (world oc) (pre ++ events oc)
                        end = pre ++ events oc ++ rest) as (rest & Hrest & ->).
    { destruct (result oc) as [st3 | e];
        [destruct (result (embed_stage env st3 (world oc))) as [st4 | e] |];
        cbn [events]; eexists; (split; [| reflexivity || (by rewrite app_nil_r)]);
        try apply Forall_app; auto. }
    destruct (chunk_stage_failure env repository existing (if fr then true else fc)
                (set_repo_info r1 st2) w1) as [Hok | (a & x & r & Hoc & Ha & Hx & Hr)];
      fold oc in Hok || fold oc in Hoc.
    + intros Heq. exfalso. eapply Hnone; [| exact Heq].
      repeat (apply Forall_app; split); auto.
    + rewrite Hoc, <- !app_assoc, app_assoc. cbn [app]. intros Heq.
      apply split_at_failure in Heq as (-> & -> & ->); try done.
      * exists r, rest. repeat split; try done. apply Forall_app. auto.
      * apply Forall_app. auto.
      * apply Forall_cons. split; [done |]. auto.
Qed.

Lemma chunker_failure_ends_chunking_witness :
  ∃ r later,
    [EvAddRepository (RepositoryInfo.set_chunking_successful false Samples.downloaded);
     EvRmtree "/tmp/reposearch_0" true]
    = EvAddRepository r :: later
    ∧ RepositoryInfo.chunking_successful r = false
    ∧ Forall (λ ev, is_chunking ev = false) later
    ∧ Forall (λ ev, chunker_failed ev = false)
        [EvMkdtemp "/tmp/reposearch_0"; EvFetch "a/b" true;
         EvAddRepository Samples.downloaded; EvDeleteFileChunks "a/b" "z.md"].
Proof.
  apply (chunker_failure_ends_chunking Samples.undecodable "a/b" false false false false
           Samples.empty_world _ (EvChunkFile "z.md" false)).
  - vm_compute. reflexivity.
  - reflexivity.
Defined.

(** After the loop, no chunk of a file the loop chunked is left in the
    store. *)
Lemma chunk_changed_files_replaces env repository rd files acc w c p ok :
  EvChunkFile p ok ∈ events (chunk_changed_files env repository rd files acc w) →
  c ∈ chunk_store (world (chunk_changed_files env repository rd files acc w)) →
  chunk_of_file repository p c = false.
Proof.
  revert acc w. induction files as [| q files IH]; intros acc w.
  - simpl. by intros ?%elem_of_nil.
  - cbn [chunk_changed_files].
    destruct (path_is_file env rd q); [| apply IH].
    rewrite bind_unfold. cbn [result world events delete_file_chunks].
    set (w' := mkWorld _ _ _).
    assert (c ∈ chunk_store w' → p = q → chunk_of_file repository p c = false) as Hdel.
    { intros Hin ->. simpl in Hin. apply list_elem_of_In, filter_In in Hin as [_ Hin].
      by apply negb_true_iff in Hin. }
    destruct (is_text_file env rd q).
    + rewrite bind_unfold. unfold do_chunk_file.
      destruct (chunk_file env rd q repository) as [cs | e]; cbn [result world events].
      * intros [? | [[= -> _] | Hin]%elem_of_cons]%elem_of_cons Hc; [done | | by eapply IH].
        apply chunk_changed_files_store in Hc. by apply Hdel.
      * intros [? | [[= -> _] | ?%elem_of_nil]%elem_of_cons]%elem_of_cons Hc; try done.
        by apply Hdel.
    + cbn [events]. intros [? | Hin]%elem_of_cons Hc; [done | by eapply IH].
Qed.

Lemma chunk_stage_replaces env repository existing fc st w c :
  let oc := chunk_stage env repository existing fc st w in
  c ∈ chunk_store (world oc) →
  (∀ p ok, EvChunkFile p ok ∈ events oc → chunk_of_file repository p c = false)
  ∧ (EvDeleteRepositoryChunks repository ∈ events oc →
     DocumentChunk.repository c ≠ repository).
Proof.
  intros oc. subst oc.
  destruct (repo_dir st) as [rd |] eqn:Hrd.
  2: { rewrite chunk_stage_skip by done. simpl. split; [intros ? ?|]; by intros ?%elem_of_nil. }
  destruct (need_chunking st) eqn:Hnc.
  2: { unfold chunk_stage. rewrite Hrd, Hnc. simpl.
       split; [intros ? ?|]; by intros ?%elem_of_nil. }
  rewrite (chunk_stage_gather _ _ _ _ _ _ rd) by done.
  set (diff := set_truthy (files_to_chunk st) && negb fc).
  rewrite (bind_finish_chunking _ _ _ (produced_chunks env repository rd diff (files_to_chunk st)))
    by apply gather_result.
  cbn [events world chunk_store]. intros Hc. unfold gather in *.
  destruct diff; rewrite bind_unfold in *.
  - destruct (gathers_for_each (elements (files_to_delete st)) (delete_file_chunks repository)
                (gathers_delete_file_chunks repository) w) as ([[] Hr] & _).
    assert (result ((if set_truthy (files_to_delete st)
                     then for_each (elements (files_to_delete st))
                            (delete_file_chunks repository)
                     else ret ()) w) = Ok tt) as Hpre
      by (by destruct (set_truthy (files_to_delete st))).
    rewrite Hpre in *. cbn [events world] in *. split.
    + intros p ok [[Hin | Hin]%elem_of_app | Hin]%elem_of_app.
      * exfalso. destruct (set_truthy (files_to_delete st)); [| by apply elem_of_nil in Hin].
        by destruct (in_stage_events _ _ _ (for_each_delete_events _ _ _) Hin).
      * by eapply chunk_changed_files_replaces.
      * apply elem_of_cons in Hin as [? | ?%elem_of_nil]; done.
    + intros [[Hin | Hin]%elem_of_app | Hin]%elem_of_app; exfalso.
      * destruct (set_truthy (files_to_delete st)); [| by apply elem_of_nil in Hin].
        by destruct (in_stage_events _ _ _ (for_each_delete_events _ _ _) Hin).
      * by destruct (in_stage_events _ _ _ (chunk_changed_files_events _ _ _ _ _ _) Hin)
          as [[? ?] | (? & ? & ? & _)].
      * apply elem_of_cons in Hin as [? | ?%elem_of_nil]; done.
  - destruct existing as [e |]; cbn [result events world] in *; split.
    + intros p ok Hin. simpl in Hin.
      repeat (apply elem_of_cons in Hin as [? | Hin]; [done |]). by apply elem_of_nil in Hin.
    + intros _. simpl in Hc. apply list_elem_of_In, filter_In in Hc as [_ Hc].
      by apply negb_true_iff, bool_decide_eq_false in Hc.
    + intros p ok Hin. simpl in Hin.
      repeat (apply elem_of_cons in Hin as [? | Hin]; [done |]). by apply elem_of_nil in Hin.
    + intros Hin. simpl in Hin.
      repeat (apply elem_of_cons in Hin as [? | Hin]; [done |]). by apply elem_of_nil in Hin.
Qed.

(** X17: no stale chunks.  After any run, a chunk in the store that belongs
    to a file the run chunked, or to the repository if the run deleted all
    its chunks, was stored by this run: the chunks that were there before are
    gone. *)
Theorem rechunked_files_have_no_stale_chunks env repository fr fd fc fe w c :
  let o := index_repository env repository fr fd fc fe w in
  c ∈ chunk_store (world o) →
  DocumentChunk.repository c = repository →
  (EvDeleteRepositoryChunks repository ∈ events o
   ∨ ∃ p ok, DocumentChunk.file_path c = Some p ∧ EvChunkFile p ok ∈ events o) →
  ∃ cs, EvStoreChunks cs true ∈ events o ∧ c ∈ cs.
Proof.
  intros o. subst o.
  assert (∀ l, Forall (λ ev, is_chunking ev = false) l →
               (EvDeleteRepositoryChunks repository ∈ l
                ∨ ∃ p ok, DocumentChunk.file_path c = Some p ∧ EvChunkFile p ok ∈ l) → False)
    as Hnone.
  { intros l Hl [Hin | (p & ok & _ & Hin)]; by apply (in_stage_events _ _ _ Hl) in Hin. }
  destruct (run_shape env repository fr fd fc fe w)
    as [e _ -> | current e _ _ -> | current st _ Hplan _ -> | current st e _ _ _ ->
        | current st dl rd d existing st2 r1 w1 pre oc _ Hplan _ _ ->].
  - intros _ _ H. exfalso. by apply (Hnone []).
  - intros _ _ H. exfalso. by apply (Hnone []).
  - cbn [events]. intros _ _ H. exfalso. eapply Hnone; [| exact H].
    eapply Forall_impl; [apply embed_stage_events |]. intros [] [? | ?]; done.
  - cbn [events]. intros _ _ H. exfalso. eapply Hnone; [| exact H]. by repeat constructor.
  - intros Hc Hrepo Hev.
    assert (Forall (λ ev, is_chunking ev = false) pre) as Hpre by (by repeat constructor).
    assert (∀ st3 w3, Forall (λ ev, is_chunking ev = false) (events (embed_stage env st3 w3)))
      as Hoe.
    { intros st3 w3. eapply Forall_impl; [apply embed_stage_events |].
      intros [] [? | ?]; done. }
    assert (∀ st4 w4, Forall (λ ev, is_chunking ev = false) (events (cleanup env st4 w4)))
      as Hcl.
    { intros st4 w4. eapply Forall_impl; [apply cleanup_events |]. by intros ? (? & ? & ->). }
    (* the chunk step removed [c] if it was there *)
    assert (c ∈ chunk_store (world oc) →
            (EvDeleteRepositoryChunks repository ∈ events oc
             ∨ ∃ p ok, DocumentChunk.file_path c = Some p ∧ EvChunkFile p ok ∈ events oc) →
            False) as Hgone.
    { intros Hin Hevc.
      destruct (chunk_stage_replaces env repository existing (if fr then true else fc)
                  (set_repo_info r1 st2) w1 c Hin) as [Hfile Hall].
      destruct Hevc as [Hd | (p & ok & Hp & Hf)]; [by apply Hall |].
      apply Hfile in Hf. unfold chunk_of_file in Hf.
      by rewrite !bool_decide_eq_true_2 in Hf. }
    assert (∀ rest, Forall (λ ev, is_chunking ev = false) rest →
              (EvDeleteRepositoryChunks repository ∈ pre ++ events oc ++ rest
               ∨ ∃ p ok, DocumentChunk.file_path c = Some p
                         ∧ EvChunkFile p ok ∈ pre ++ events oc ++ rest) →
              EvDeleteRepositoryChunks repository ∈ events oc
              ∨ ∃ p ok, DocumentChunk.file_path c = Some p ∧ EvChunkFile p ok ∈ events oc)
      as Hin_oc.
    { intros rest Hrest [Hin | (p & ok & Hp & Hin)].
      - apply elem_of_app in Hin as [Hin | [Hin | Hin]%elem_of_app]; [| by left |].
        + by apply (in_stage_events _ _ _ Hpre) in Hin.
        + by apply (in_stage_events _ _ _ Hrest) in Hin.
      - apply elem_of_app in Hin as [Hin | [Hin | Hin]%elem_of_app]; [| right; eauto |].
        + by apply (in_stage_events _ _ _ Hpre) in Hin.
        + by apply (in_stage_events _ _ _ Hrest) in Hin. }
    destruct (result oc) as [st3 | e] eqn:Hoc.
    2: { cbn [events world] in *. exfalso. apply Hgone; [done |].
         apply (Hin_oc []); [constructor | by rewrite app_nil_r]. }
    destruct (embed_stage_shape env st3 (world oc))
      as [? Ho | r ? ? ? Ho | r ? ? ? Ho | e r ? ? ? Ho]; rewrite Ho in *;
      cbn [result events world chunk_store] in *.
    + rewrite (proj1 (proj2 (cleanup_keeps_store _ _ _))) in Hc.
      exfalso. apply Hgone; [done |]. eapply Hin_oc; [| exact Hev].
      repeat (apply Forall_app; split); auto; by repeat constructor.
    + rewrite (proj1 (proj2 (cleanup_keeps_store _ _ _))) in Hc.
      exfalso. apply Hgone; [done |]. eapply Hin_oc; [| exact Hev].
      repeat (apply Forall_app; split); auto; by repeat constructor.
    + rewrite (proj1 (proj2 (cleanup_keeps_store _ _ _))) in Hc. cbn [chunk_store] in Hc.
      apply elem_of_app in Hc as [Hc | Hc].
      * exfalso. apply Hgone; [done |]. eapply Hin_oc; [| exact Hev].
        repeat (apply Forall_app; split); auto; by repeat constructor.
      * exists (chunks st3). split; [| done].
        apply elem_of_app. right. apply elem_of_app. right.
        apply elem_of_app. left. apply elem_of_cons. by left.
    + exfalso. apply Hgone; [done |]. eapply Hin_oc; [| exact Hev].
      repeat (apply Forall_app; split); auto; by repeat constructor.
Qed.

Lemma rechunked_files_have_no_stale_chunks_witness :
  ∃ cs, EvStoreChunks cs true ∈ events ChangedCommit.run
        ∧ Samples.chunk_for "a/b" "x.py" ∈ cs.
Proof.
  apply (rechunked_files_have_no_stale_chunks Samples.healthy "a/b" false false false false
           ChangedCommit.before (Samples.chunk_for "a/b" "x.py")).
  - vm_compute. apply list_elem_of_In. right. left. reflexivity.
  - reflexivity.
  - right. exists "x.py", true. split; [reflexivity |].
    vm_compute. apply list_elem_of_In. repeat first [by left | right].
Defined.

(** ** Failed calls and the flags *)









